(** * SentenceVAE (model.py): a shallow embedding and its verification

    The module defines one class, [SentenceVAE], with the methods
    [__init__], [encoder], [reparameterize], [decoder], [forward],
    [inference], [_sample] and [_save_sample].

    Modelling conventions.
    - A Python call either returns a value or raises: [result].
    - A tensor is its shape together with its entries in row-major order.
      Index tensors (dtype long) hold [Z]; arithmetic on them wraps at 64
      bits.  Floating-point entries are values of an abstract type [R]; the
      learned maps, the recurrent cells and the random generators are
      parameters ([Numerics]).
    - The operations of the tensor library (PyTorch, as of the release the
      module is written for: [Variable] wrappers, byte masks, tensors of no
      dimension) follow its documentation.  Its checks on shapes are
      modelled: [view] needs as
      many entries as it has, a linear layer its input width, packing
      sorted positive lengths, [topk] a non-empty dimension, and a
      recurrent network an initial hidden state of shape
      (layers × directions, batch, hidden_size).  Token ids are taken to be
      rows of the embedding table.
    - Names are resolved the way Python does it: a name that a function
      never assigns is looked up in the module's namespace, and raises
      [NameError] when it is not there; a name the function assigns
      somewhere is local, and raises [UnboundLocalError] when read before
      its assignment.
    - A call binds its positional arguments to the parameters, and raises
      [TypeError] when there are too many. *)

From Stdlib Require Import ZArith QArith Lia String.
From stdpp Require Import base option list sorting gmap strings.

Local Open Scope string_scope.
Local Open Scope nat_scope.

(** ** Python results *)

Module Py.

Inductive exn : Type :=
| ValueError
| TypeError
| RuntimeError
| IndexError
| NameError (name : string)
| UnboundLocalError (name : string).

Inductive result (A : Type) : Type :=
| Ok (a : A)
| Raise (e : exn).
Arguments Ok {A} a.
Arguments Raise {A} e.

Definition bind {A B} (c : result A) (k : A → result B) : result B :=
  match c with
  | Ok a => k a
  | Raise e => Raise e
  end.

Definition of_option {A} (e : exn) (o : option A) : result A :=
  match o with
  | Some a => Ok a
  | None => Raise e
  end.

Definition guard (e : exn) (b : bool) : result unit :=
  if b then Ok tt else Raise e.

End Py.
Export Py.

#[global] Instance result_ret : MRet result := λ A a, Ok a.
#[global] Instance result_bind : MBind result := λ A B k c, Py.bind c k.

Fixpoint mapM {A B} (f : A → result B) (l : list A) : result (list B) :=
  match l with
  | [] => Ok []
  | a :: l' => b ← f a ; bs ← mapM f l' ; Ok (b :: bs)
  end.

(** ** Tensors *)

Record tensor (A : Type) : Type := Tensor {
  shape : list nat;
  data : list A
}.
Arguments Tensor {A} shape data.
Arguments shape {A} t.
Arguments data {A} t.

Definition numel (s : list nat) : nat := foldr Nat.mul 1 s.

(** [x.size(0)] *)
Definition size0 {A} (x : tensor A) : result nat :=
  of_option IndexError (shape x !! 0).

(** [x.view(s)]: same entries, new shape, which must have as many entries. *)
Definition view {A} (s : list nat) (x : tensor A) : result (tensor A) :=
  if numel s =? numel (shape x) then Ok (Tensor s (data x)) else Raise RuntimeError.

(** [x.squeeze()]: every dimension of size 1 is dropped. *)
Definition squeeze {A} (x : tensor A) : tensor A :=
  Tensor (filter (λ d, d ≠ 1) (shape x)) (data x).

(** [x.unsqueeze(0)] *)
Definition unsqueeze0 {A} (x : tensor A) : tensor A :=
  Tensor (1 :: shape x) (data x).

(** The [i]-th block of [w] consecutive entries. *)
Definition chunk {A} (w i : nat) (d : list A) : list A := take w (drop (i * w) d).

(** [x[:, idx]] for an index tensor [idx]: selection along dimension 1. *)
Definition index_select1 {A} (idx : list nat) (x : tensor A) : result (tensor A) :=
  match shape x with
  | d0 :: d1 :: s =>
      _ ← guard IndexError (forallb (λ j, j <? d1) idx) ;
      Ok (Tensor (d0 :: length idx :: s)
            (concat (map (λ i, concat (map (λ j, chunk (numel s) (i * d1 + j) (data x)) idx))
                         (seq 0 d0))))
  | _ => Raise IndexError
  end.

(** ** Constructor arguments and the constructed module *)

Inductive rnn_kind : Type := RNN | GRU.

Record rnn_module : Type := Rnn {
  rnn_cell : rnn_kind;
  rnn_input_size : nat;
  rnn_hidden_size : nat;
  rnn_num_layers : nat;
  rnn_bidirectional : bool
}.

Record linear : Type := Linear {
  in_features : nat;
  out_features : nat
}.

Record ctor_args : Type := Args {
  arg_vocab_size : nat;
  arg_embedding_size : nat;
  arg_rnn_type : string;
  arg_hidden_size : nat;
  arg_word_dropout : Q;
  arg_embedding_dropout : Q;
  arg_latent_size : nat;
  arg_sos_idx : Z;
  arg_eos_idx : Z;
  arg_pad_idx : Z;
  arg_unk_idx : Z;
  arg_max_sequence_length : nat;
  arg_num_layers : nat;
  arg_bidirectional : bool
}.

Record SentenceVAE : Type := Model {
  max_sequence_length : nat;
  sos_idx : Z;
  eos_idx : Z;
  pad_idx : Z;
  unk_idx : Z;
  latent_size : nat;
  rnn_type : string;
  bidirectional : bool;
  num_layers : nat;
  hidden_size : nat;
  num_embeddings : nat;
  embedding_dim : nat;
  word_dropout_rate : Q;
  embedding_dropout_p : Q;
  encoder_rnn : rnn_module;
  decoder_rnn : rnn_module;
  hidden_factor : nat;
  hidden2mean : linear;
  hidden2logv : linear;
  latent2hidden : linear;
  outputs2vocab : linear
}.

(** Lines 31-38: the choice of the recurrent cell. *)
Definition select_rnn (rnn_type : string) : result rnn_kind :=
  if String.eqb rnn_type "rnn" then Ok RNN
  else if String.eqb rnn_type "gru" then Ok GRU
  else Raise ValueError.

Definition directions (bidirectional : bool) : nat := if bidirectional then 2 else 1.

(** The module that lines 14-48 make around a recurrent cell. *)
Definition build (a : ctor_args) (rnn : rnn_kind) : SentenceVAE :=
  let mk := Rnn rnn (arg_embedding_size a) (arg_hidden_size a) (arg_num_layers a)
                (arg_bidirectional a) in
  let hidden_factor := directions (arg_bidirectional a) * arg_num_layers a in
  {| max_sequence_length := arg_max_sequence_length a;
     sos_idx := arg_sos_idx a;
     eos_idx := arg_eos_idx a;
     pad_idx := arg_pad_idx a;
     unk_idx := arg_unk_idx a;
     latent_size := arg_latent_size a;
     rnn_type := arg_rnn_type a;
     bidirectional := arg_bidirectional a;
     num_layers := arg_num_layers a;
     hidden_size := arg_hidden_size a;
     num_embeddings := arg_vocab_size a;
     embedding_dim := arg_embedding_size a;
     word_dropout_rate := arg_word_dropout a;
     embedding_dropout_p := arg_embedding_dropout a;
     encoder_rnn := mk;
     decoder_rnn := mk;
     hidden_factor := hidden_factor;
     hidden2mean := Linear (arg_hidden_size a * hidden_factor) (arg_latent_size a);
     hidden2logv := Linear (arg_hidden_size a * hidden_factor) (arg_latent_size a);
     latent2hidden := Linear (arg_latent_size a) (arg_hidden_size a * hidden_factor);
     outputs2vocab := Linear (arg_hidden_size a * directions (arg_bidirectional a))
                             (arg_vocab_size a) |}.

(** What [self.name = value] stores in an instance. *)
Inductive attr : Type :=
| AInt (n : Z)
| ASize (n : nat)
| ABool (b : bool)
| AStr (s : string)
| ARate (q : Q)
| ATensorType
| AEmbedding (num_embeddings embedding_dim : nat)
| ADropout (p : Q)
| ARnn (r : rnn_module)
| ALinear (l : linear).

Definition setattr (name : string) (v : attr) (self : gmap string attr) : gmap string attr :=
  <[name:=v]> self.

(** [nn.Dropout(p)], line 29: the layer refuses a probability outside
    [0, 1] with [ValueError]. *)
Definition nn_Dropout (p : Q) : result attr :=
  if Qle_bool 0 p && Qle_bool p 1 then Ok (ADropout p) else Raise ValueError.

(** [__init__], lines 8-48, on the instance under construction.  The layers
    of the tensor library are built from the sizes they are given.  There
    are two places that raise, both with [ValueError]: the dropout layer of
    line 29, before the cell kind is looked at, and the [raise] of line 38,
    after the embedding and the dropout layer have been set. *)
Definition __init__ (a : ctor_args) (self : gmap string attr)
  : result unit * gmap string attr :=
  let self := setattr "tensor" ATensorType self in
  let self := setattr "max_sequence_length" (ASize (arg_max_sequence_length a)) self in
  let self := setattr "sos_idx" (AInt (arg_sos_idx a)) self in
  let self := setattr "eos_idx" (AInt (arg_eos_idx a)) self in
  let self := setattr "pad_idx" (AInt (arg_pad_idx a)) self in
  let self := setattr "unk_idx" (AInt (arg_unk_idx a)) self in
  let self := setattr "latent_size" (ASize (arg_latent_size a)) self in
  let self := setattr "rnn_type" (AStr (arg_rnn_type a)) self in
  let self := setattr "bidirectional" (ABool (arg_bidirectional a)) self in
  let self := setattr "num_layers" (ASize (arg_num_layers a)) self in
  let self := setattr "hidden_size" (ASize (arg_hidden_size a)) self in
  let self := setattr "embedding"
                (AEmbedding (arg_vocab_size a) (arg_embedding_size a)) self in
  let self := setattr "word_dropout_rate" (ARate (arg_word_dropout a)) self in
  match nn_Dropout (arg_embedding_dropout a) with
  | Raise e => (Raise e, self)
  | Ok dropout =>
  let self := setattr "embedding_dropout" dropout self in
  match select_rnn (arg_rnn_type a) with
  | Raise e => (Raise e, self)
  | Ok rnn =>
      let mk := Rnn rnn (arg_embedding_size a) (arg_hidden_size a) (arg_num_layers a)
                    (arg_bidirectional a) in
      let self := setattr "encoder_rnn" (ARnn mk) self in
      let self := setattr "decoder_rnn" (ARnn mk) self in
      let hidden_factor := directions (arg_bidirectional a) * arg_num_layers a in
      let self := setattr "hidden_factor" (ASize hidden_factor) self in
      let self := setattr "hidden2mean"
                    (ALinear (Linear (arg_hidden_size a * hidden_factor)
                                     (arg_latent_size a))) self in
      let self := setattr "hidden2logv"
                    (ALinear (Linear (arg_hidden_size a * hidden_factor)
                                     (arg_latent_size a))) self in
      let self := setattr "latent2hidden"
                    (ALinear (Linear (arg_latent_size a)
                                     (arg_hidden_size a * hidden_factor))) self in
      let self := setattr "outputs2vocab"
                    (ALinear (Linear (arg_hidden_size a * directions (arg_bidirectional a))
                                     (arg_vocab_size a))) self in
      (Ok tt, self)
  end
  end.

(** [SentenceVAE(...)]: a new instance goes through [__init__]; the caller
    receives it when [__init__] returns, and nothing when it raises. *)
Definition construct (a : ctor_args) : result (gmap string attr) :=
  match __init__ a ∅ with
  | (Ok _, self) => Ok self
  | (Raise e, _) => Raise e
  end.



(** ** Floating-point computations

    The entries of floating-point tensors, the learned maps and the random
    generators are parameters of the development. *)

Class Numerics : Type := {
  R : Type;
  (** the row of the embedding table for a token id *)
  embedding_row : Z → list R;
  (** the four linear layers, acting on one row *)
  hidden2mean_fn : list R → list R;
  hidden2logv_fn : list R → list R;
  latent2hidden_fn : list R → list R;
  outputs2vocab_fn : list R → list R;
  (** the encoder network on a packed batch: entries of the final hidden state *)
  encoder_rnn_fn : tensor R → list nat → list R;
  (** the decoder network on a packed batch: entries of the padded outputs *)
  decoder_rnn_fn : tensor R → list nat → tensor R → list R;
  (** the decoder network on one time step: entries of output and new hidden state *)
  decoder_step_fn : tensor R → tensor R → list R * list R;
  (** [nn.Dropout] and [log_softmax] on entries *)
  dropout_fn : list R → list R;
  log_softmax_fn : list R → list R;
  (** the position of a largest entry of a vector *)
  argmax : list R → nat;
  (** the stream of standard normal draws of the generator *)
  gauss : nat → R;
  (** [0.5 * _], [exp], and the broadcasting product and sum *)
  half_fn : R → R;
  exp_fn : R → R;
  tensor_mul : tensor R → tensor R → result (tensor R);
  tensor_add : tensor R → tensor R → result (tensor R)
}.

Section Model.
Context {N : Numerics}.

(** The blocks of width [w] that make up the leading dimensions [s]. *)
Definition rows {A} (s : list nat) (w : nat) (d : list A) : list (list A) :=
  map (λ i, chunk w i d) (seq 0 (numel s)).

(** [self.embedding(x)]: one table row per id.  The lookup is total here:
    the ids are taken to be rows of the table, [0 <= id < num_embeddings]
    (the library raises [IndexError] for any other), and the theorems that
    promise a result of a call on ids of the caller say so in a hypothesis
    ([in_table]). *)
Definition embedding (m : SentenceVAE) (x : tensor Z) : tensor R :=
  Tensor (shape x ++ [embedding_dim m]) (concat (map embedding_row (data x))).

(** A linear layer acts on the last dimension, which must be [in_features]. *)
Definition apply_linear (l : linear) (f : list R → list R) (x : tensor R) : result (tensor R) :=
  match last (shape x) with
  | Some d =>
      if d =? in_features l
      then Ok (Tensor (removelast (shape x) ++ [out_features l])
                 (concat (map f (rows (removelast (shape x)) d (data x)))))
      else Raise RuntimeError
  | None => Raise RuntimeError
  end.

(** [rnn_utils.pack_padded_sequence(x, lengths, batch_first=True)]: at
    least one batch row, one length per row, all positive, in decreasing
    order, none beyond the padded length. *)
Definition decreasing (l : list Z) : bool :=
  forallb (λ p : Z * Z, (p.2 <=? p.1)%Z) (zip l (tail l)).

Definition pack_padded_sequence (x : tensor R) (lengths : list Z)
  : result (tensor R * list nat) :=
  match shape x with
  | b :: T :: _ =>
      _ ← guard RuntimeError (0 <? b) ;
      _ ← guard RuntimeError (length lengths =? b) ;
      _ ← guard RuntimeError (forallb (λ n, (0 <? n)%Z) lengths) ;
      _ ← guard RuntimeError (decreasing lengths) ;
      _ ← guard RuntimeError (forallb (λ n, (n <=? Z.of_nat T)%Z) lengths) ;
      Ok (x, map Z.to_nat lengths)
  | _ => Raise RuntimeError
  end.

(** The shape of the hidden state of a recurrent network on a batch. *)
Definition hidden_shape (r : rnn_module) (batch : nat) : list nat :=
  [rnn_num_layers r * directions (rnn_bidirectional r); batch; rnn_hidden_size r].

(** [_, hidden = self.encoder_rnn(x_packed)] *)
Definition encoder_rnn_forward (m : SentenceVAE) (packed : tensor R * list nat)
  : result (tensor R) :=
  _ ← guard RuntimeError (bool_decide (last (shape packed.1) = Some (rnn_input_size (encoder_rnn m)))) ;
  Ok (Tensor (hidden_shape (encoder_rnn m) (length packed.2))
             (encoder_rnn_fn packed.1 packed.2)).

(** Lines 61-65 of [encoder]: "flatten hidden state". *)
Definition flatten_hidden (m : SentenceVAE) (bs : nat) (hidden : tensor R) : result (tensor R) :=
  if bidirectional m || (1 <? num_layers m)
  then view [bs; hidden_size m * hidden_factor m] hidden
  else Ok (squeeze hidden).

(** [encoder], up to the flattened hidden state. *)
Definition encoder_hidden (m : SentenceVAE) (x : tensor Z) (sorted_lengths : list Z)
  : result (tensor R * tensor R) :=
  bs ← size0 x ;
  let x_embed := embedding m x in
  x_packed ← pack_padded_sequence x_embed sorted_lengths ;
  hidden ← encoder_rnn_forward m x_packed ;
  hidden ← flatten_hidden m bs hidden ;
  Ok (x_embed, hidden).

Definition encoder (m : SentenceVAE) (x : tensor Z) (sorted_lengths : list Z)
  : result (tensor Z * tensor R * tensor R * tensor R) :=
  '(x_embed, hidden) ← encoder_hidden m x sorted_lengths ;
  mean ← apply_linear (hidden2mean m) hidden2mean_fn hidden ;
  logv ← apply_linear (hidden2logv m) hidden2logv_fn hidden ;
  Ok (x, x_embed, mean, logv).

(** ** Objects, the store and the module namespace

    Python values are references to objects.  [reparameterize] updates a
    tensor in place, so the methods that lead to it run over a store. *)

Definition loc : Type := nat.

Inductive object : Type :=
| OInt (n : Z)
| OLong (t : tensor Z)
| OFloat (t : tensor R)
| OOther (descr : string).

Record store : Type := Store {
  objects : list object;
  drawn : nat                (* how far the normal generator has been read *)
}.

Definition M (A : Type) : Type := store → result A * store.

#[global] Instance M_ret : MRet M := λ A a σ, (Ok a, σ).
#[global] Instance M_bind : MBind M := λ A B k c σ,
  match c σ with
  | (Ok a, σ') => k a σ'
  | (Raise e, σ') => (Raise e, σ')
  end.

Definition lift {A} (r : result A) : M A := λ σ, (r, σ).

Definition alloc (o : object) : M loc := λ σ,
  (Ok (length (objects σ)), Store (objects σ ++ [o]) (drawn σ)).

Definition read (l : loc) : M object := λ σ,
  (of_option RuntimeError (objects σ !! l), σ).

Definition write (l : loc) (o : object) : M unit := λ σ,
  (Ok tt, Store (<[l:=o]> (objects σ)) (drawn σ)).

Definition read_float (l : loc) : M (tensor R) :=
  o ← read l ;
  match o with
  | OFloat t => mret t
  | _ => lift (Raise TypeError)
  end.

Definition read_long (l : loc) : M (tensor Z) :=
  o ← read l ;
  match o with
  | OLong t => mret t
  | _ => lift (Raise TypeError)
  end.

(** A long tensor of one dimension, as the list of its entries. *)
Definition vector {A} (t : tensor A) : result (list A) :=
  match shape t with
  | [_] => Ok (data t)
  | _ => Raise RuntimeError
  end.

(** [torch.randn(size)] *)
Definition torch_randn (size : list nat) : M loc := λ σ,
  alloc (OFloat (Tensor size (map gauss (seq (drawn σ) (numel size)))))
        (Store (objects σ) (drawn σ + numel size)).

(** A name the function never assigns: looked up in the module namespace. *)
Definition global (G : gmap string loc) (x : string) : result loc :=
  of_option (NameError x) (G !! x).

(** Modelled from the spec: [utils.to_var] is imported (line 4) and not part
    of the sources.  The spec uses the tensors it is applied to as they are
    (4.3: the noise; 4.6: the sentence-start input, the fresh latent
    vectors), so it hands back the tensor it is given. *)
Definition to_var {A} (x : A) : A := x.

(** [reparameterize], lines 71-80.  The parameter is called [bs]; line 77
    reads [batch_size]. *)
Definition reparameterize (G : gmap string loc) (m : SentenceVAE)
    (bs : nat) (mean logv : loc) : M loc :=
  (* std = torch.exp(0.5 * logv) *)
  lv ← read_float logv ;
  h ← alloc (OFloat (Tensor (shape lv) (map half_fn (data lv)))) ;
  ht ← read_float h ;
  std ← alloc (OFloat (Tensor (shape ht) (map exp_fn (data ht)))) ;
  (* z = to_var(torch.randn([batch_size, self.latent_size])) *)
  batch_size ← lift (global G "batch_size") ;
  n ← read batch_size ;
  n ← lift (match n with
            | OInt n => if (0 <=? n)%Z then Ok (Z.to_nat n) else Raise RuntimeError
            | _ => Raise TypeError
            end) ;
  z ← torch_randn [n; latent_size m] ;
  let z := to_var z in
  (* z = z.mul(std).add_(mean) *)
  zt ← read_float z ;
  st ← read_float std ;
  p ← lift (tensor_mul zt st) ;
  z ← alloc (OFloat p) ;
  zt ← read_float z ;
  mt ← read_float mean ;
  r ← lift (tensor_add zt mt) ;
  _ ← lift (guard RuntimeError (bool_decide (shape r = shape zt))) ;
  _ ← write z (OFloat r) ;
  mret z.

(** ** Sorting and indexing *)

Fixpoint insert_sorted (before : Z → Z → bool) (p : Z * nat) (l : list (Z * nat))
  : list (Z * nat) :=
  match l with
  | [] => [p]
  | q :: l' => if before p.1 q.1 then p :: l else q :: insert_sorted before p l'
  end.

(** [torch.sort(v, descending)] on one dimension: the sorted entries and the
    positions they came from.  (Where entries are equal the library leaves
    the order open; here they keep their order.) *)
Definition torch_sort (descending : bool) (v : list Z) : list Z * list nat :=
  let before := if descending then Z.geb else Z.leb in
  let ps := foldr (insert_sorted before) [] (zip v (seq 0 (length v))) in
  (ps.*1, ps.*2).

(** [x[idx]] for an index tensor [idx]: selection along dimension 0. *)
Definition index_select0 {A} (idx : list nat) (x : tensor A) : result (tensor A) :=
  match shape x with
  | d0 :: s =>
      _ ← guard IndexError (forallb (λ j, j <? d0) idx) ;
      Ok (Tensor (length idx :: s) (concat (map (λ j, chunk (numel s) j (data x)) idx)))
  | [] => Raise IndexError
  end.

(** [x.view(-1, d)] *)
Definition view_rows {A} (d : nat) (x : tensor A) : result (tensor A) :=
  if (0 <? d) && (numel (shape x) mod d =? 0)
  then Ok (Tensor [numel (shape x) / d; d] (data x))
  else Raise RuntimeError.

(** ** The teacher-forced decoder *)

(** 64-bit two's complement. *)
Definition wrap64 (z : Z) : Z := ((z + 2 ^ 63) mod 2 ^ 64 - 2 ^ 63)%Z.

(** Line 103: the mask [(x.data - sos_idx) * (x.data - pad_idx) == 0]. *)
Definition protected (m : SentenceVAE) (v : Z) : bool :=
  (wrap64 (wrap64 (v - sos_idx m) * wrap64 (v - pad_idx m)) =? 0)%Z.

Definition Qltb (p q : Q) : bool := negb (Qle_bool q p).

(** Lines 98-105, with [prob i] the draw of [torch.rand] for entry [i]. *)
Definition word_dropout (m : SentenceVAE) (prob : nat → Q) (x : tensor Z) : tensor Z :=
  let prob := imap (λ i v, if protected m v then 1%Q else prob i) (data x) in
  let decoder_x := data x in
  Tensor (shape x)
         (zip_with (λ p v, if Qltb p (word_dropout_rate m) then unk_idx m else v)
                   prob decoder_x).

(** Lines 94-106: the embedded input of the decoder network. *)
Definition decoder_input (m : SentenceVAE) (prob : nat → Q) (x : tensor Z) (x_embed : tensor R)
  : tensor R :=
  if Qltb 0 (word_dropout_rate m)
  then embedding m (word_dropout m prob x)
  else x_embed.

(** Lines 86-92: the initial hidden state of the decoder network. *)
Definition decoder_hidden (m : SentenceVAE) (bs : nat) (z : tensor R) : result (tensor R) :=
  hidden ← apply_linear (latent2hidden m) latent2hidden_fn z ;
  if bidirectional m || (1 <? num_layers m)
  then view [hidden_factor m; bs; hidden_size m] hidden
  else Ok (unsqueeze0 hidden).

(** [x_tilde, _ = self.decoder_rnn(packed_x, hidden)] followed by
    [pad_packed_sequence(x_tilde, batch_first=True)[0]]. *)
Definition decoder_rnn_forward (m : SentenceVAE) (packed : tensor R * list nat)
    (hidden : tensor R) : result (tensor R) :=
  let r := decoder_rnn m in
  _ ← guard RuntimeError (bool_decide (last (shape packed.1) = Some (rnn_input_size r))) ;
  _ ← guard RuntimeError (bool_decide (shape hidden = hidden_shape r (length packed.2))) ;
  Ok (Tensor [length packed.2; foldr Nat.max 0 packed.2;
              directions (rnn_bidirectional r) * rnn_hidden_size r]
             (decoder_rnn_fn packed.1 packed.2 hidden)).

(** [decoder], lines 83-127.  [sorted_idx] is not a parameter and is never
    assigned: it is a name of the module namespace.  [padded_outputs] is
    assigned by line 119, hence local, and read by the same line. *)
Definition decoder (G : gmap string loc) (σ : store) (m : SentenceVAE) (prob : nat → Q)
    (x : tensor Z) (x_embed : tensor R) (z : tensor R) (sorted_lengths : list Z)
  : result (tensor R) :=
  bs ← size0 x ;
  hidden ← decoder_hidden m bs z ;
  let x_embed := decoder_input m prob x x_embed in
  let x_embed := Tensor (shape x_embed) (dropout_fn (data x_embed)) in
  packed_x ← pack_padded_sequence x_embed sorted_lengths ;
  x_tilde ← decoder_rnn_forward m packed_x hidden ;
  (* _, reversed_idx = torch.sort(sorted_idx) *)
  sorted_idx ← global G "sorted_idx" ;
  o ← of_option RuntimeError (objects σ !! sorted_idx) ;
  v ← match o with OLong t => vector t | _ => Raise TypeError end ;
  let reversed_idx := (torch_sort false v).2 in
  (* padded_outputs = padded_outputs[reversed_idx] *)
  padded_outputs ← Raise (UnboundLocalError "padded_outputs") ;
  padded_outputs ← index_select0 (A:=R) reversed_idx padded_outputs ;
  (* b, s, _ = x_tilde.size() *)
  match shape x_tilde with
  | [b; s; d] =>
      flat ← view_rows d x_tilde ;
      y ← apply_linear (outputs2vocab m) outputs2vocab_fn flat ;
      let logp := Tensor (shape y) (log_softmax_fn (data y)) in
      view [b; s; num_embeddings m] logp
  | _ => Raise ValueError
  end.

(** A call binds the positional arguments to the parameters after [self]. *)
Definition decoder_params : list string := ["x"; "x_embed"; "z"; "sorted_lengths"].

Definition call {A B} (params : list string) (args : list A) (body : list A → M B) : M B :=
  if length args =? length params then body args else lift (Raise TypeError).

(** [forward], lines 130-140.  The parameter is called [input_seq]; line 134
    reads [input_sequence].  The lengths are a tensor of one dimension. *)
Definition forward (G : gmap string loc) (m : SentenceVAE) (prob : nat → Q)
    (input_seq length : loc) : M (loc * loc * loc * loc) :=
  x0 ← read_long input_seq ;
  batch_size ← lift (size0 x0) ;
  (* sorted_lengths, sorted_idx = torch.sort(length, descending=True) *)
  len ← read_long length ;
  lv ← lift (vector len) ;
  sorted_lengths ← alloc (OLong (Tensor (shape len) (torch_sort true lv).1)) ;
  sorted_idx ← alloc (OLong (Tensor (shape len) (Z.of_nat <$> (torch_sort true lv).2))) ;
  (* input_seq = input_sequence[sorted_idx] *)
  input_sequence ← lift (global G "input_sequence") ;
  t ← read_long input_sequence ;
  sel ← lift (index_select0 (torch_sort true lv).2 t) ;
  input_seq ← alloc (OLong sel) ;
  (* x, x_embed, mean, logvar = self.encoder(input_seq, sorted_lengths) *)
  '(_, x_embed, mean, logvar) ← lift (encoder m sel (torch_sort true lv).1) ;
  let x := input_seq in
  x_embed ← alloc (OFloat x_embed) ;
  mean ← alloc (OFloat mean) ;
  logvar ← alloc (OFloat logvar) ;
  z ← reparameterize G m batch_size mean logvar ;
  (* logp = self.decoder(x, x_embed, z, sorted_lengths, sorted_idx) *)
  logp ← call decoder_params [x; x_embed; z; sorted_lengths; sorted_idx]
    (λ args,
       match args with
       | [x; x_embed; z; sorted_lengths] =>
           x ← read_long x ;
           x_embed ← read_float x_embed ;
           z ← read_float z ;
           sl ← read_long sorted_lengths ;
           r ← (λ σ, (decoder G σ m prob x x_embed z (data sl), σ)) ;
           alloc (OFloat r)
       | _ => lift (Raise TypeError)
       end) ;
  mret (logp, mean, logvar, z).

(** The names the module binds at top level (lines 1-6). *)
Definition module_objects : list object :=
  [OOther "torch"; OOther "torch.nn"; OOther "torch.nn.utils.rnn"; OOther "utils.to_var";
   OOther "SentenceVAE"].

Definition module_globals : gmap string loc :=
  {[ "torch" := 0; "nn" := 1; "rnn_utils" := 2; "to_var" := 3; "SentenceVAE" := 4 ]}.

(** ** Generation *)

(** [torch.topk(dist, 1, dim=-1)[1]]: for every vector along the last
    dimension, the position of a largest entry. *)
Definition topk1 (dist : tensor R) : result (tensor Z) :=
  match last (shape dist) with
  | None => Ok (Tensor [] [0%Z])
  | Some V =>
      _ ← guard RuntimeError (1 <=? V) ;
      Ok (Tensor (removelast (shape dist) ++ [1])
                 (map (λ r, Z.of_nat (argmax r)) (rows (removelast (shape dist)) V (data dist))))
  end.

(** [_sample], lines 204-214. *)
Definition _sample (dist : tensor R) (mode : string) : result (tensor Z) :=
  sample ← (if String.eqb mode "greedy" then topk1 dist
            else Raise (UnboundLocalError "sample")) ;
  let sample := squeeze sample in
  (* fix if sample is a single value, enforce it to be a 1D tensor *)
  if length (shape sample) =? 0 then view [1] sample else Ok sample.

(** A long tensor of two dimensions: its rows, and their width. *)
Record matrix : Type := Matrix {
  width : nat;
  mrows : list (list Z)
}.

(** A vector assigned to [n] places: as it is, or its single entry repeated. *)
Definition broadcast1 {A} (n : nat) (v : list A) : result (list A) :=
  if length v =? n then Ok v
  else match v with
       | [a] => Ok (replicate n a)
       | _ => Raise RuntimeError
       end.

(** [l[idx]] and [l[idx] = vals] for an index tensor [idx]. *)
Definition gather {A} (l : list A) (idx : list nat) : result (list A) :=
  mapM (λ i, of_option IndexError (l !! i)) idx.

Definition scatter {A} (idx : list nat) (vals : list A) (l : list A) : list A :=
  foldl (λ acc p, <[p.1:=p.2]> acc) l (zip idx vals).

Definition index_put {A} (l : list A) (idx : list nat) (vals : list A) : result (list A) :=
  vals ← broadcast1 (length idx) vals ;
  _ ← guard IndexError (forallb (λ i, i <? length l) idx) ;
  Ok (scatter idx vals l).

(** [v.masked_select(mask)] *)
Fixpoint select {A} (v : list A) (mask : list bool) : list A :=
  match v, mask with
  | a :: v', b :: mask' => if b then a :: select v' mask' else select v' mask'
  | _, _ => []
  end.

Definition masked_select {A} (v : list A) (mask : list bool) : result (list A) :=
  let n := length v `max` length mask in
  v ← broadcast1 n v ;
  mask ← broadcast1 n mask ;
  Ok (select v mask).

(** [_save_sample], lines 216-224. *)
Definition _save_sample (save_to : matrix) (sample : list Z) (running_seqs : list nat) (t : nat)
  : result matrix :=
  (* select only still running *)
  running_latest ← gather (mrows save_to) running_seqs ;
  (* update token at position t *)
  _ ← guard IndexError (t <? width save_to) ;
  column ← broadcast1 (length running_latest) sample ;
  let running_latest := zip_with (λ row v, <[t:=v]> row) running_latest column in
  (* save back *)
  Ok (Matrix (width save_to) (scatter running_seqs running_latest (mrows save_to))).

(** Lines 151-157: the initial hidden state of the generator. *)
Definition inference_hidden (m : SentenceVAE) (batch_size : nat) (z : tensor R)
  : result (tensor R) :=
  hidden ← apply_linear (latent2hidden m) latent2hidden_fn z ;
  hidden ← (if bidirectional m || (1 <? num_layers m)
            then view [hidden_factor m; batch_size; hidden_size m] hidden
            else Ok hidden) ;
  Ok (unsqueeze0 hidden).

(** [output, hidden = self.decoder_rnn(input_embedding, hidden)] on a batch
    of one-step inputs (batch first). *)
Definition decoder_rnn_step (m : SentenceVAE) (input hidden : tensor R)
  : result (tensor R * tensor R) :=
  let r := decoder_rnn m in
  match shape input with
  | [b; s; e] =>
      _ ← guard RuntimeError (e =? rnn_input_size r) ;
      _ ← guard RuntimeError (bool_decide (shape hidden = hidden_shape r b)) ;
      let oh := decoder_step_fn input hidden in
      Ok (Tensor [b; s; directions (rnn_bidirectional r) * rnn_hidden_size r] oh.1,
          Tensor (hidden_shape r b) oh.2)
  | _ => Raise RuntimeError
  end.

(** The variables of the loop of [inference] (lines 159-200). *)
Record gen_state : Type := GenState {
  t_ : nat;
  input_sequence : option (list Z);   (* unbound before the first iteration *)
  hidden : tensor R;
  sequence_running : list nat;
  sequence_mask : list bool;
  running_seqs : list nat;
  generations : matrix
}.

(** The loop condition, line 169. *)
Definition running (m : SentenceVAE) (s : gen_state) : bool :=
  (t_ s <? max_sequence_length m) && (0 <? length (running_seqs s)).

(** The loop body, lines 171-200. *)
Definition step (m : SentenceVAE) (batch_size : nat) (s : gen_state) : result gen_state :=
  input_sequence ← of_option (UnboundLocalError "input_sequence")
    (if t_ s =? 0 then Some (to_var (replicate batch_size (sos_idx m)))
     else input_sequence s) ;
  (* input_sequence = input_sequence.unsqueeze(1) *)
  let input_embedding := embedding m (Tensor [length input_sequence; 1] input_sequence) in
  '(output, hidden) ← decoder_rnn_step m input_embedding (hidden s) ;
  logits ← apply_linear (outputs2vocab m) outputs2vocab_fn output ;
  sample ← _sample logits "greedy" ;
  input_sequence ← vector sample ;
  (* save next input; the sample has one dimension (lemma [sample_greedy])
     and the indexing below is modelled for that case *)
  generations ← _save_sample (generations s) input_sequence (sequence_running s) (t_ s) ;
  (* update global running sequence *)
  let running_mask := map (λ v, negb (v =? eos_idx m)%Z) input_sequence in
  sequence_mask ← index_put (sequence_mask s) (sequence_running s) running_mask ;
  sequence_running ← masked_select (seq 0 batch_size) sequence_mask ;
  (* update local running sequences *)
  running_seqs ← masked_select (running_seqs s) running_mask ;
  (* prune input and hidden state according to local update *)
  if 0 <? length running_seqs then
    input_sequence ← gather input_sequence running_seqs ;
    hidden ← index_select1 running_seqs hidden ;
    Ok (GenState (S (t_ s)) (Some input_sequence) hidden sequence_running sequence_mask
                 (seq 0 (length running_seqs)) generations)
  else
    Ok (GenState (S (t_ s)) (Some input_sequence) hidden sequence_running sequence_mask
                 running_seqs generations).

(** The [while] loop.  Every iteration advances [t], so
    [max_sequence_length] iterations are enough from [t = 0]: the branch
    for no fuel is not reached then (lemma [loop_run]). *)
Fixpoint while_loop (m : SentenceVAE) (batch_size : nat) (fuel : nat) (s : gen_state)
  : result gen_state :=
  if running m s then
    match fuel with
    | 0 => Ok s
    | S fuel => s' ← step m batch_size s ; while_loop m batch_size fuel s'
    end
  else Ok s.

Definition initial_state (m : SentenceVAE) (batch_size : nat) (hidden : tensor R) : gen_state :=
  {| t_ := 0;
     input_sequence := None;
     hidden := hidden;
     sequence_running := seq 0 batch_size;
     sequence_mask := replicate batch_size true;
     running_seqs := seq 0 batch_size;
     generations := Matrix (max_sequence_length m)
                      (replicate batch_size (replicate (max_sequence_length m) (pad_idx m))) |}.

(** [inference], lines 143-202; [drawn] is the position of the normal
    generator at the call. *)
Definition inference (m : SentenceVAE) (drawn : nat) (n : nat) (z : option (tensor R))
  : result (matrix * tensor R) :=
  '(batch_size, z) ← match z with
                     | None =>
                         let size := [n; latent_size m] in
                         Ok (n, to_var (Tensor size (map gauss (seq drawn (numel size)))))
                     | Some z => batch_size ← size0 z ; Ok (batch_size, z)
                     end ;
  hidden ← inference_hidden m batch_size z ;
  final ← while_loop m batch_size (max_sequence_length m) (initial_state m batch_size hidden) ;
  Ok (generations final, z).

(** The states in which the loop condition is evaluated during a run of
    [while_loop], in order; the run stops after the last one, by the
    condition or by an exception of the body. *)
Fixpoint loop_states (m : SentenceVAE) (batch_size : nat) (fuel : nat) (s : gen_state)
  : list gen_state :=
  s :: (if running m s then
          match fuel with
          | 0 => []
          | S fuel =>
              match step m batch_size s with
              | Ok s' => loop_states m batch_size fuel s'
              | Raise _ => []
              end
          end
        else []).

End Model.

#[global] Instance result_fmap : FMap result := λ A B f c,
  match c with
  | Ok a => Ok (f a)
  | Raise e => Raise e
  end.

(** A numerics instance to run the model on: integers for floats. *)
Definition toy_numerics : Numerics := {|
  R := Z;
  embedding_row := λ v, [v];
  hidden2mean_fn := λ l, l;
  hidden2logv_fn := λ l, l;
  latent2hidden_fn := λ l, l;
  outputs2vocab_fn := λ r, replicate 5 (default 0%Z (head r));
  encoder_rnn_fn := λ x _, data x;
  decoder_rnn_fn := λ x _ _, data x;
  decoder_step_fn := λ i h, (zip_with Z.add (data i) (data h), map (Z.add 1) (data h));
  dropout_fn := λ l, l;
  log_softmax_fn := λ l, l;
  argmax := λ l, Z.to_nat (default 0%Z (head l) mod 5);
  gauss := λ n, Z.of_nat n;
  half_fn := λ x, x;
  exp_fn := λ x, x;
  tensor_mul := λ a b, Ok (Tensor (shape a) (zip_with Z.mul (data a) (data b)));
  tensor_add := λ a b, Ok (Tensor (shape a) (zip_with Z.add (data a) (data b)))
|}.

(** * Construction *)

Section Construction.











(** A dropout probability of 2 with the cell kind "gru": the constructor
    raises at line 29. *)
Example init_dropout_refused :
  construct (Args 50 8 "gru" 16 0 2 4 2%Z 3%Z 0%Z 1%Z 10 1 false) = Raise ValueError.
Proof. reflexivity. Qed.

End Construction.

(** * The store: what a computation leaves alone *)

Section Frame.
Context {N : Numerics}.

(** [preserves n P c]: run from a store with at least [n] objects, [c]
    leaves the first [n] objects as they are, and a returned value
    satisfies [P]. *)
Definition preserves {A} (n : nat) (P : A → Prop) (c : M A) : Prop :=
  ∀ σ r σ', n ≤ length (objects σ) → c σ = (r, σ') →
    n ≤ length (objects σ')
    ∧ (∀ l, l < n → objects σ' !! l = objects σ !! l)
    ∧ (∀ a, r = Ok a → P a).

Lemma preserves_ret {A} n (P : A → Prop) a : P a → preserves n P (mret a).
Proof. intros HP σ r σ' Hn [= <- <-]. split_and!; [done..|]. by intros ? [= <-]. Qed.

Lemma preserves_lift {A} n (P : A → Prop) (r : result A) :
  (∀ a, r = Ok a → P a) → preserves n P (lift r).
Proof. intros HP σ r' σ' Hn [= <- <-]. done. Qed.

Lemma preserves_bind {A B} n (P : A → Prop) (Q : B → Prop) (c : M A) (k : A → M B) :
  preserves n P c → (∀ a, P a → preserves n Q (k a)) → preserves n Q (c ≫= k).
Proof.
  intros Hc Hk σ r σ' Hn. unfold mbind, M_bind.
  destruct (c σ) as [[a|e] σ1] eqn:E; intros Hr.
  - destruct (Hc _ _ _ Hn E) as (Hn1 & Hsame & HP).
    destruct (Hk a (HP a eq_refl) _ _ _ Hn1 Hr) as (Hn2 & Hsame2 & HQ).
    split_and!; [done| |done].
    intros l Hl. rewrite Hsame2, Hsame; done.
  - injection Hr as <- <-. destruct (Hc _ _ _ Hn E) as (Hn1 & Hsame & _).
    split_and!; [done..|]. intros ? [=].
Qed.

Lemma preserves_alloc n o : preserves n (λ l, n ≤ l) (alloc o).
Proof.
  intros σ r σ' Hn [= <- <-]. simpl. split_and!.
  - rewrite length_app. lia.
  - intros l Hl. apply lookup_app_l. lia.
  - by intros ? [= <-].
Qed.

Lemma preserves_read n l : preserves n (λ _, True) (read l).
Proof. intros σ r σ' Hn [= <- <-]. done. Qed.

Lemma preserves_write n l o : n ≤ l → preserves n (λ _, True) (write l o).
Proof.
  intros Hl σ r σ' Hn [= <- <-]. simpl. split_and!; [|intros k Hk|done].
  - by rewrite length_insert.
  - apply list_lookup_insert_ne. lia.
Qed.

Lemma preserves_read_float n l : preserves n (λ _, True) (read_float l).
Proof.
  eapply preserves_bind; [apply preserves_read|].
  intros [] _; first [by apply preserves_ret | by apply preserves_lift].
Qed.

Lemma preserves_randn n size : preserves n (λ l, n ≤ l) (torch_randn size).
Proof.
  intros σ r σ' Hn. unfold torch_randn. intros E.
  by eapply (preserves_alloc n _ (Store (objects σ) _)) in E.
Qed.

(** [reparameterize] leaves every object that exists at the call as it is,
    and what it returns is an object made during the call. *)
Lemma reparameterize_preserves G m bs mean logv n :
  preserves n (λ z, n ≤ z) (reparameterize G m bs mean logv).
Proof.
  unfold reparameterize.
  eapply preserves_bind; [apply preserves_read_float|intros lv _].
  eapply preserves_bind; [apply preserves_alloc|intros h Hh].
  eapply preserves_bind; [apply preserves_read_float|intros ht _].
  eapply preserves_bind; [apply preserves_alloc|intros std Hstd].
  eapply preserves_bind; [by apply (preserves_lift _ (λ _, True))|intros batch_size _].
  eapply preserves_bind; [apply preserves_read|intros o _].
  eapply preserves_bind; [by apply (preserves_lift _ (λ _, True))|intros k _].
  eapply preserves_bind; [apply preserves_randn|intros z Hz].
  eapply preserves_bind; [apply preserves_read_float|intros zt _].
  eapply preserves_bind; [apply preserves_read_float|intros st _].
  eapply preserves_bind; [by apply (preserves_lift _ (λ _, True))|intros p _].
  eapply preserves_bind; [apply preserves_alloc|intros z' Hz'].
  eapply preserves_bind; [apply preserves_read_float|intros zt' _].
  eapply preserves_bind; [apply preserves_read_float|intros mt _].
  eapply preserves_bind; [by apply (preserves_lift _ (λ _, True))|intros r _].
  eapply preserves_bind; [by apply (preserves_lift _ (λ _, True))|intros _ _].
  eapply preserves_bind; [by apply preserves_write|intros _ _].
  by apply preserves_ret.
Qed.

End Frame.

(** * [reparameterize] and [forward] *)

Section Training.
Context {N : Numerics}.

Lemma bind_ok {A B} (c : M A) (k : A → M B) σ a σ1 :
  c σ = (Ok a, σ1) → (c ≫= k) σ = k a σ1.
Proof. intros E. unfold mbind, M_bind. by rewrite E. Qed.

Lemma bind_raise {A B} (c : M A) (k : A → M B) σ e σ1 :
  c σ = (Raise e, σ1) → (c ≫= k) σ = (Raise e, σ1).
Proof. intros E. unfold mbind, M_bind. by rewrite E. Qed.

Lemma read_float_ok σ l t :
  objects σ !! l = Some (OFloat t) → read_float l σ = (Ok t, σ).
Proof. intros E. unfold read_float. erewrite bind_ok; [|unfold read; by rewrite E]. done. Qed.

Lemma read_long_ok σ l t :
  objects σ !! l = Some (OLong t) → read_long l σ = (Ok t, σ).
Proof. intros E. unfold read_long. erewrite bind_ok; [|unfold read; by rewrite E]. done. Qed.

Lemma module_has_no_batch_size : global module_globals "batch_size" = Raise (NameError "batch_size").
Proof. vm_compute. reflexivity. Qed.

Lemma module_has_no_input_sequence :
  global module_globals "input_sequence" = Raise (NameError "input_sequence").
Proof. vm_compute. reflexivity. Qed.

(** C3.  In the module as it is written, [reparameterize] does not return a
    sample: its parameter is [bs], line 77 reads [batch_size], a name bound
    neither in the function nor in the module, and the call raises
    [NameError] once the standard deviation has been computed. *)
Theorem reparameterize_name_error (m : SentenceVAE) (bs : nat) (mean logv : loc)
    (σ : store) (lv : tensor R) :
  objects σ !! logv = Some (OFloat lv) →
  (reparameterize module_globals m bs mean logv σ).1 = Raise (NameError "batch_size").
Proof.
  intros Hlv. unfold reparameterize.
  erewrite bind_ok; [|by apply read_float_ok].
  erewrite bind_ok; [|reflexivity].
  erewrite bind_ok; [|apply read_float_ok; simpl; apply list_lookup_middle; reflexivity].
  erewrite bind_ok; [|reflexivity].
  erewrite bind_raise; [|unfold lift; by rewrite module_has_no_batch_size].
  reflexivity.
Qed.

(** C10.  Whatever the module namespace holds, and whether the call returns
    or raises, [reparameterize] leaves the objects [mean] and [logv] as they
    were; the tensor it returns, the one line 78 adds to in place, is an
    object created during the call. *)
Theorem reparameterize_frame (G : gmap string loc) (m : SentenceVAE) (bs : nat)
    (mean logv : loc) (σ : store) (om ol : object) :
  objects σ !! mean = Some om →
  objects σ !! logv = Some ol →
  objects (reparameterize G m bs mean logv σ).2 !! mean = Some om
  ∧ objects (reparameterize G m bs mean logv σ).2 !! logv = Some ol
  ∧ ∀ z, (reparameterize G m bs mean logv σ).1 = Ok z →
         length (objects σ) ≤ z ∧ z ≠ mean ∧ z ≠ logv.
Proof.
  intros Hm Hl.
  destruct (reparameterize G m bs mean logv σ) as [r σ'] eqn:E. simpl.
  destruct (reparameterize_preserves G m bs mean logv (length (objects σ)) σ r σ')
    as (_ & Hsame & Hz); [done..|].
  apply lookup_lt_Some in Hm as Hm', Hl as Hl'.
  split_and!.
  - by rewrite Hsame.
  - by rewrite Hsame.
  - intros z ->. specialize (Hz z eq_refl). lia.
Qed.

(** A computation that raises from every store. *)
Definition never_returns {A} (c : M A) : Prop := ∀ σ, ∃ e, (c σ).1 = Raise e.

Lemma never_bind_l {A B} (c : M A) (k : A → M B) :
  never_returns c → never_returns (c ≫= k).
Proof.
  intros Hc σ. destruct (Hc σ) as [e He]. exists e.
  unfold mbind, M_bind. destruct (c σ) as [[a|e'] σ1]; simpl in *; congruence.
Qed.

Lemma never_bind_r {A B} (c : M A) (k : A → M B) :
  (∀ a, never_returns (k a)) → never_returns (c ≫= k).
Proof.
  intros Hk σ. unfold mbind, M_bind. destruct (c σ) as [[a|e] σ1]; [apply Hk|by exists e].
Qed.

(** Whatever the module namespace is made to hold, [forward] returns
    nothing: the call of line 138 passes five arguments to [decoder],
    which takes four. *)
Lemma forward_never_returns G m prob input_seq length :
  never_returns (forward G m prob input_seq length).
Proof.
  unfold forward.
  do 10 (apply never_bind_r; intros ?).
  apply never_bind_r; intros [[[? ?] ?] ?].
  do 4 (apply never_bind_r; intros ?).
  apply never_bind_l. intros σ. exists TypeError. reflexivity.
Qed.

(** Likewise [decoder]: line 119 reads the local [padded_outputs] that it is
    about to assign. *)
Lemma decoder_never_returns G σ m prob x x_embed z sorted_lengths :
  ∃ e, decoder G σ m prob x x_embed z sorted_lengths = Raise e.
Proof.
  unfold decoder, mbind, result_bind.
  repeat match goal with
         | |- ∃ e, Py.bind ?c _ = Raise e => destruct c; simpl; [|by eexists]
         end.
  by eexists.
Qed.

(** C1.  In the module as it is written, [forward] does not return
    log-probabilities in any batch order: its parameter is [input_seq],
    line 134 reads [input_sequence], a name bound neither in the function
    nor in the module, and the call raises [NameError] right after the
    lengths are sorted. *)
Theorem forward_name_error (m : SentenceVAE) (prob : nat → Q) (input_seq length : loc)
    (σ : store) (x len : tensor Z) :
  objects σ !! input_seq = Some (OLong x) →
  shape x ≠ [] →
  objects σ !! length = Some (OLong len) →
  List.length (shape len) = 1 →
  (forward module_globals m prob input_seq length σ).1 = Raise (NameError "input_sequence").
Proof.
  intros Hx Hsx Hlen Hslen. unfold forward.
  erewrite bind_ok; [|by apply read_long_ok].
  destruct (shape x) as [|d0 sx] eqn:Esx; [done|].
  erewrite bind_ok; [|unfold lift, size0; by rewrite Esx].
  erewrite bind_ok; [|by apply read_long_ok].
  destruct (shape len) as [|d [|]] eqn:Esl; try done.
  erewrite bind_ok; [|unfold lift, vector; by rewrite Esl].
  erewrite bind_ok; [|reflexivity].
  erewrite bind_ok; [|reflexivity].
  erewrite bind_raise; [|unfold lift; by rewrite module_has_no_input_sequence].
  reflexivity.
Qed.

End Training.

(** The module namespace after [import]: the five names of lines 1-6. *)
Definition module_store : list object := @module_objects toy_numerics.

(** A batch of two sequences of lengths 3 and 4, padded with the pad id 0,
    placed after the module's objects. *)
Definition batch_store : store (N:=toy_numerics) :=
  Store (module_store ++ [OLong (Tensor [2; 4] [2; 7; 3; 0; 2; 5; 6; 3]%Z);
                          OLong (Tensor [2] [3; 4]%Z)]) 0.

Definition rnn_args : ctor_args :=
  Args 50 8 "rnn" 16 0 0 4 2%Z 3%Z 0%Z 1%Z 10 1 false.

Lemma forward_name_error_witness :
  (forward (N:=toy_numerics) module_globals (build rnn_args RNN) (λ _, 0%Q) 5 6 batch_store).1
  = Raise (NameError "input_sequence").
Proof.
  apply (forward_name_error (N:=toy_numerics) (build rnn_args RNN) (λ _, 0%Q) 5 6 batch_store
           (Tensor [2; 4] [2; 7; 3; 0; 2; 5; 6; 3]%Z) (Tensor [2] [3; 4]%Z));
    [reflexivity|discriminate|reflexivity|reflexivity].
Defined.

(** A small configuration: five words, all sizes 1, at most six steps. *)
Definition small_args : ctor_args :=
  Args 5 1 "rnn" 1 0 0 1 2%Z 3%Z 0%Z 1%Z 6 1 false.

(** A mean and a log-variance for a batch of two, latent size 1. *)
Definition mean_object : object (N:=toy_numerics) :=
  OFloat (N:=toy_numerics) (Tensor [2; 1] [10; 20]%Z).
Definition logv_object : object (N:=toy_numerics) :=
  OFloat (N:=toy_numerics) (Tensor [2; 1] [3; 4]%Z).

Definition latent_store : store (N:=toy_numerics) :=
  Store (module_store ++ [OInt 2; mean_object; logv_object]) 0.

Lemma reparameterize_name_error_witness :
  (reparameterize (N:=toy_numerics) module_globals (build small_args RNN) 2 6 7 latent_store).1
  = Raise (NameError "batch_size").
Proof.
  apply (reparameterize_name_error (N:=toy_numerics) (build small_args RNN) 2 6 7 latent_store
           (Tensor [2; 1] [3; 4]%Z)).
  reflexivity.
Defined.

(** A namespace in which some other code has bound [batch_size] to 2. *)
Definition patched_globals : gmap string loc := <["batch_size" := 5]> module_globals.

Lemma reparameterize_frame_witness :
  objects (reparameterize (N:=toy_numerics) patched_globals (build small_args RNN) 2 6 7
             latent_store).2 !! 6 = Some mean_object
  ∧ objects (reparameterize (N:=toy_numerics) patched_globals (build small_args RNN) 2 6 7
               latent_store).2 !! 7 = Some logv_object
  ∧ ∀ z, (reparameterize (N:=toy_numerics) patched_globals (build small_args RNN) 2 6 7
            latent_store).1 = Ok z → 8 ≤ z ∧ z ≠ 6 ∧ z ≠ 7.
Proof.
  apply (reparameterize_frame (N:=toy_numerics) patched_globals (build small_args RNN) 2 6 7
           latent_store mean_object logv_object);
    reflexivity.
Defined.


(** With the name bound, line 78 runs: the sum lands in a new object. *)
Example reparameterize_patched :
  let out := reparameterize (N:=toy_numerics) patched_globals (build small_args RNN) 2 6 7
               latent_store in
  out.1 = Ok 11
  ∧ objects out.2 !! 11 = Some (OFloat (N:=toy_numerics) (Tensor [2; 1] [10; 24]%Z))
  ∧ objects out.2 !! 6 = Some mean_object.
Proof. vm_compute. done. Qed.

(** [decoder] on a sorted batch of two, with the module's own namespace:
    everything up to the packed recurrent pass goes through, then line 118
    reads [sorted_idx]. *)
Example decoder_name_error :
  decoder (N:=toy_numerics) module_globals batch_store (build rnn_args RNN) (λ _, 0%Q)
    (Tensor [2; 4] [2; 5; 6; 3; 2; 7; 3; 0]%Z) (Tensor [2; 4; 8] []) (Tensor [2; 4] [])
    [4; 3]%Z
  = Raise (NameError "sorted_idx").
Proof. vm_compute. reflexivity. Qed.

(** * Word dropout *)

Section WordDropout.
Context {N : Numerics}.

Lemma wrap64_small (z : Z) : (- 2 ^ 63 ≤ z < 2 ^ 63)%Z → wrap64 z = z.
Proof.
  intros Hz. unfold wrap64.
  rewrite Z.mod_small; lia.
Qed.

(** Sentence-start and pad are recognised by the mask of line 103. *)
Lemma protected_special (m : SentenceVAE) (v : Z) :
  v = sos_idx m ∨ v = pad_idx m → protected m v = true.
Proof.
  unfold protected. intros [-> | ->].
  - rewrite Z.sub_diag. by rewrite (wrap64_small 0), Z.mul_0_l, (wrap64_small 0) by lia.
  - rewrite Z.sub_diag. by rewrite (wrap64_small 0), Z.mul_0_r, (wrap64_small 0) by lia.
Qed.

(** Among vocabulary ids the mask recognises nothing else: the product of
    line 103 stays within 64 bits. *)
Lemma protected_other (m : SentenceVAE) (v : Z) :
  (0 ≤ sos_idx m < 2 ^ 31)%Z → (0 ≤ pad_idx m < 2 ^ 31)%Z → (0 ≤ v < 2 ^ 31)%Z →
  v ≠ sos_idx m → v ≠ pad_idx m → protected m v = false.
Proof.
  intros Hs Hp Hv Hns Hnp. unfold protected.
  rewrite (wrap64_small (v - sos_idx m)), (wrap64_small (v - pad_idx m)) by lia.
  rewrite wrap64_small by nia.
  apply Z.eqb_neq. nia.
Qed.

Lemma word_dropout_lookup m prob x i v :
  data x !! i = Some v →
  data (word_dropout m prob x) !! i
  = Some (if Qltb (if protected m v then 1%Q else prob i) (word_dropout_rate m)
          then unk_idx m else v).
Proof.
  intros Hv. unfold word_dropout. simpl.
  rewrite lookup_zip_with, list_lookup_imap, Hv. reflexivity.
Qed.

Lemma Qltb_true (p q : Q) : (p < q)%Q → Qltb p q = true.
Proof.
  intros H. unfold Qltb. apply negb_true_iff.
  destruct (Qle_bool q p) eqn:E; [|done].
  apply Qle_bool_iff in E. exfalso. by apply (Qlt_not_le p q).
Qed.

Lemma Qltb_false (p q : Q) : (q <= p)%Q → Qltb p q = false.
Proof.
  intros H. unfold Qltb. apply negb_false_iff. by apply Qle_bool_iff.
Qed.

(** C5.  With the draws of [torch.rand] in [0, 1) and ids of the vocabulary:
    at rate 0 the decoder consumes the embedded input it is given, no token
    is touched; at rate 1 every token other than sentence-start and pad
    becomes the unknown id; and at every rate up to 1 sentence-start and pad
    stay as they are. *)
Theorem word_dropout_rates (m : SentenceVAE) (prob : nat → Q) (x : tensor Z)
    (x_embed : tensor R) :
  (∀ i, (0 <= prob i)%Q ∧ (prob i < 1)%Q) →
  (0 ≤ sos_idx m < 2 ^ 31)%Z →
  (0 ≤ pad_idx m < 2 ^ 31)%Z →
  (∀ v, v ∈ data x → (0 ≤ v < 2 ^ 31)%Z) →
  ((word_dropout_rate m == 0)%Q → decoder_input m prob x x_embed = x_embed)
  ∧ ((word_dropout_rate m == 1)%Q →
       decoder_input m prob x x_embed = embedding m (word_dropout m prob x)
       ∧ shape (word_dropout m prob x) = shape x
       ∧ ∀ i v, data x !! i = Some v → v ≠ sos_idx m → v ≠ pad_idx m →
                data (word_dropout m prob x) !! i = Some (unk_idx m))
  ∧ ((word_dropout_rate m <= 1)%Q →
       ∀ i v, data x !! i = Some v → v = sos_idx m ∨ v = pad_idx m →
              data (word_dropout m prob x) !! i = Some v).
Proof.
  intros Hprob Hsos Hpad Hx. split_and!.
  - intros H0. unfold decoder_input.
    rewrite Qltb_false; [done|]. rewrite H0. apply Qle_refl.
  - intros H1. split_and!.
    + unfold decoder_input. rewrite Qltb_true; [done|]. by rewrite H1.
    + reflexivity.
    + intros i v Hv Hns Hnp. rewrite (word_dropout_lookup _ _ _ _ _ Hv).
      rewrite protected_other; [|done|done|apply Hx; by eapply list_elem_of_lookup_2|done..].
      rewrite Qltb_true; [done|]. rewrite H1. apply Hprob.
  - intros Hle i v Hv Hsp. rewrite (word_dropout_lookup _ _ _ _ _ Hv).
    rewrite (protected_special _ _ Hsp). by rewrite Qltb_false.
Qed.

End WordDropout.

(** A model trained with word dropout at rate 1, and a padded sequence. *)
Definition dropout_model : SentenceVAE :=
  build (Args 50 8 "gru" 16 1 0 4 2%Z 3%Z 0%Z 1%Z 10 1 false) GRU.

Definition padded_tokens : tensor Z := Tensor [1; 5] [2; 7; 9; 0; 0]%Z.

Lemma word_dropout_rates_witness :
  data (word_dropout dropout_model (λ _, 1 # 2) padded_tokens) !! 1 = Some 1%Z
  ∧ data (word_dropout dropout_model (λ _, 1 # 2) padded_tokens) !! 0 = Some 2%Z.
Proof.
  destruct (word_dropout_rates (N:=toy_numerics) dropout_model (λ _, 1 # 2) padded_tokens
              (Tensor [1; 5; 8] [])) as (_ & H1 & Hle).
  - intros _. split; [discriminate|reflexivity].
  - simpl. lia.
  - simpl. lia.
  - intros v Hv. apply list_elem_of_In in Hv. simpl in Hv.
    destruct Hv as [<-|[<-|[<-|[<-|[<-|[]]]]]]; lia.
  - split.
    + destruct H1 as (_ & _ & H1); [reflexivity|].
      apply (H1 1 7%Z); [reflexivity|discriminate|discriminate].
    + apply (Hle ltac:(discriminate) 0 2%Z); [reflexivity|by left].
Defined.

Example word_dropout_rate_one :
  data (word_dropout dropout_model (λ _, 1 # 2) padded_tokens) = [2; 1; 1; 0; 0]%Z.
Proof. reflexivity. Qed.

(** The same model with a dropout rate of 2, which line 28 stores like any
    other: the draws of the sentence-start and pad positions, set to 1 by
    line 103, are below the rate, and line 105 replaces those positions as
    well. *)
Definition overdropped_model : SentenceVAE :=
  build (Args 50 8 "gru" 16 2 0 4 2%Z 3%Z 0%Z 1%Z 10 1 false) GRU.

Lemma word_dropout_rate_two :
  data padded_tokens !! 0 = Some (sos_idx overdropped_model)
  ∧ data padded_tokens !! 3 = Some (pad_idx overdropped_model)
  ∧ data (word_dropout overdropped_model (λ _, 1 # 2) padded_tokens) !! 0
    = Some (unk_idx overdropped_model)
  ∧ data (word_dropout overdropped_model (λ _, 1 # 2) padded_tokens) !! 3
    = Some (unk_idx overdropped_model)
  ∧ unk_idx overdropped_model ≠ sos_idx overdropped_model
  ∧ unk_idx overdropped_model ≠ pad_idx overdropped_model.
Proof. repeat split; discriminate. Qed.

(** * Shapes of the hidden state *)

Section Hidden.
Context {N : Numerics}.

Lemma pack_one (x : tensor R) (T : nat) (s : list nat) (n : Z) :
  shape x = 1 :: T :: s → (0 < n ≤ Z.of_nat T)%Z →
  pack_padded_sequence x [n] = Ok (x, [Z.to_nat n]).
Proof.
  intros Hx Hn. unfold pack_padded_sequence. rewrite Hx. simpl.
  assert ((0 <? n)%Z = true) as -> by (apply Z.ltb_lt; lia).
  assert ((n <=? Z.of_nat T)%Z = true) as -> by (apply Z.leb_le; lia).
  reflexivity.
Qed.

(** C6.  With one layer and one direction, the flattening of [encoder] on a
    batch of one sequence does not give shape (1, hidden_size): the bare
    [squeeze] of line 65 drops the batch dimension as well, leaving
    (hidden_size), or no dimension at all when hidden_size is 1. *)
Theorem encoder_flatten_batch_of_one (a : ctor_args) (k : rnn_kind) (x : tensor Z)
    (T : nat) (n : Z) :
  arg_num_layers a = 1 →
  arg_bidirectional a = false →
  shape x = [1; T] →
  (0 < n ≤ Z.of_nat T)%Z →
  ∃ x_embed hidden,
    encoder_hidden (build a k) x [n] = Ok (x_embed, hidden)
    ∧ shape hidden = (if decide (arg_hidden_size a = 1) then [] else [arg_hidden_size a])
    ∧ shape hidden ≠ [1; arg_hidden_size a].
Proof.
  intros Hl Hb Hx Hn. unfold encoder_hidden, size0. rewrite Hx. simpl.
  erewrite pack_one; [|unfold embedding; simpl; by rewrite Hx|done]. simpl.
  unfold encoder_rnn_forward. simpl. rewrite Hx. simpl.
  rewrite bool_decide_eq_true_2 by done. simpl.
  unfold flatten_hidden. simpl. rewrite Hl, Hb. simpl.
  eexists _, _. split; [reflexivity|]. unfold hidden_shape. simpl.
  rewrite !filter_cons, filter_nil.
  destruct (decide (arg_hidden_size a = 1)) as [->|Hne].
  - split; [reflexivity|discriminate].
  - repeat case_decide; done.
Qed.

(** On batches of two or more, with hidden size two or more, the same line
    gives the shape (batch, hidden_size). *)
Lemma flatten_hidden_larger (a : ctor_args) (k : rnn_kind) (bs : nat) (d : list R) :
  arg_num_layers a = 1 → arg_bidirectional a = false →
  2 ≤ bs → 2 ≤ arg_hidden_size a →
  shape <$> flatten_hidden (build a k) bs (Tensor [1; bs; arg_hidden_size a] d)
  = Ok [bs; arg_hidden_size a].
Proof.
  intros Hl Hb Hbs Hh. unfold flatten_hidden. simpl. rewrite Hl, Hb. simpl.
  rewrite !filter_cons, filter_nil.
  repeat case_decide; first [lia | done].
Qed.

Lemma latent2hidden_shape (a : ctor_args) (k : rnn_kind) (bs : nat) (z : tensor R) :
  shape z = [bs; arg_latent_size a] →
  ∃ h, apply_linear (latent2hidden (build a k)) latent2hidden_fn z = Ok h
       ∧ shape h = [bs; arg_hidden_size a * (directions (arg_bidirectional a) * arg_num_layers a)].
Proof.
  intros Hz. unfold apply_linear. rewrite Hz. simpl.
  rewrite Nat.eqb_refl. eexists. split; reflexivity.
Qed.

(** With more than one layer, or two directions: the decoder un-flattens
    the projection, the generator wraps the un-flattened tensor once more. *)
Lemma hidden_multi (a : ctor_args) (k : rnn_kind) (bs : nat) (z : tensor R) :
  arg_bidirectional a || (1 <? arg_num_layers a) = true →
  shape z = [bs; arg_latent_size a] →
  ∃ h, decoder_hidden (build a k) bs z = Ok h
       ∧ shape h = hidden_shape (decoder_rnn (build a k)) bs
       ∧ inference_hidden (build a k) bs z = Ok (unsqueeze0 h).
Proof.
  intros Hmulti Hz.
  destruct (latent2hidden_shape a k bs z Hz) as (h0 & Hh0 & Hs0).
  unfold decoder_hidden, inference_hidden. rewrite Hh0. simpl. rewrite Hmulti.
  unfold view. rewrite Hs0.
  assert ((numel [directions (arg_bidirectional a) * arg_num_layers a; bs; arg_hidden_size a]
           =? numel [bs; arg_hidden_size a
                         * (directions (arg_bidirectional a) * arg_num_layers a)]) = true) as ->.
  { apply Nat.eqb_eq. simpl. lia. }
  simpl. eexists. split; [reflexivity|]. split; [|reflexivity].
  unfold hidden_shape. simpl. f_equal. apply Nat.mul_comm.
Qed.

(** C7.  With more than one layer, or two directions, the initial hidden
    state of the generator is not the one of the decoder: the decoder
    un-flattens the projection to (layers × directions, batch, hidden_size),
    the generator wraps that un-flattened tensor in one more dimension of
    size 1 (line 157 is not under an [else]). *)
Theorem generator_hidden_mismatch (a : ctor_args) (k : rnn_kind) (bs : nat) (z : tensor R) :
  arg_bidirectional a || (1 <? arg_num_layers a) = true →
  shape z = [bs; arg_latent_size a] →
  ∃ h, decoder_hidden (build a k) bs z = Ok h
       ∧ shape h = hidden_shape (decoder_rnn (build a k)) bs
       ∧ inference_hidden (build a k) bs z = Ok (unsqueeze0 h)
       ∧ inference_hidden (build a k) bs z ≠ decoder_hidden (build a k) bs z.
Proof.
  intros Hmulti Hz.
  destruct (hidden_multi a k bs z Hmulti Hz) as (h & Hdec & Hshape & Hinf).
  exists h. split; [done|]. split; [done|]. split; [done|].
  rewrite Hdec, Hinf. intros [= E]. apply (f_equal shape) in E.
  apply (f_equal length) in E. simpl in E. lia.
Qed.

(** With one layer and one direction the two agree. *)
Lemma generator_hidden_single (a : ctor_args) (k : rnn_kind) (bs : nat) (z : tensor R) :
  arg_bidirectional a || (1 <? arg_num_layers a) = false →
  inference_hidden (build a k) bs z = decoder_hidden (build a k) bs z.
Proof.
  intros Hsingle. unfold decoder_hidden, inference_hidden. simpl. rewrite Hsingle.
  by destruct (apply_linear _ _ z).
Qed.

End Hidden.

Definition one_sequence : tensor Z := Tensor [1; 3] [2; 7; 3]%Z.

Lemma encoder_flatten_batch_of_one_witness :
  ∃ x_embed hidden,
    encoder_hidden (N:=toy_numerics) (build rnn_args RNN) one_sequence [3%Z]
    = Ok (x_embed, hidden)
    ∧ shape hidden = [16]
    ∧ shape hidden ≠ [1; 16].
Proof.
  apply (encoder_flatten_batch_of_one (N:=toy_numerics) rnn_args RNN one_sequence 3 3%Z);
    [reflexivity|reflexivity|reflexivity|lia].
Defined.

(** Two layers; hidden size 2, latent size 1, at most four steps. *)
Definition two_layer_args : ctor_args :=
  Args 5 1 "gru" 2 0 0 1 2%Z 3%Z 0%Z 1%Z 4 2 false.

Definition one_latent : tensor (R (Numerics:=toy_numerics)) := Tensor [1; 1] [7%Z].

Lemma generator_hidden_mismatch_witness :
  ∃ h, decoder_hidden (N:=toy_numerics) (build two_layer_args GRU) 1 one_latent = Ok h
       ∧ shape h = [2; 1; 2]
       ∧ inference_hidden (N:=toy_numerics) (build two_layer_args GRU) 1 one_latent
         = Ok (unsqueeze0 h)
       ∧ inference_hidden (N:=toy_numerics) (build two_layer_args GRU) 1 one_latent
         ≠ decoder_hidden (N:=toy_numerics) (build two_layer_args GRU) 1 one_latent.
Proof.
  apply (generator_hidden_mismatch (N:=toy_numerics) two_layer_args GRU 1 one_latent);
    reflexivity.
Defined.

Example generator_hidden_two_layers :
  shape <$> inference_hidden (N:=toy_numerics) (build two_layer_args GRU) 1 one_latent
  = Ok [1; 2; 1; 2]
  ∧ shape <$> decoder_hidden (N:=toy_numerics) (build two_layer_args GRU) 1 one_latent
    = Ok [2; 1; 2].
Proof. split; reflexivity. Qed.

(** * Greedy sampling *)

Section Sampling.
Context {N : Numerics}.

Lemma length_rows {A} (s : list nat) (w : nat) (d : list A) :
  length (rows s w d) = numel s.
Proof. unfold rows. by rewrite length_map, length_seq. Qed.

(** The tokens that greedy sampling picks from logits of shape
    (k, 1, vocabulary): one per sequence. *)
Definition greedy_tokens (k V : nat) (logits : list R) : list Z :=
  map (λ r, Z.of_nat (argmax r)) (rows [k; 1] V logits).

Lemma length_greedy_tokens k V logits : length (greedy_tokens k V logits) = k.
Proof. unfold greedy_tokens. rewrite length_map, length_rows. simpl. lia. Qed.

Lemma vector_of_shape {A} (n : nat) (d : list A) : vector (Tensor [n] d) = Ok d.
Proof. reflexivity. Qed.

(** Greedy sampling on logits of shape (k, 1, vocabulary). *)
Lemma sample_greedy (dist : tensor R) (k V : nat) :
  shape dist = [k; 1; V] →
  1 ≤ V →
  _sample dist "greedy" = Ok (Tensor [k] (greedy_tokens k V (data dist))).
Proof.
  intros Hs HV. unfold _sample, topk1. simpl. rewrite Hs.
  destruct V as [|V']; [lia|]. simpl.
  unfold squeeze. simpl. rewrite !filter_cons, filter_nil.
  destruct (decide (k = 1)) as [->|Hk].
  - reflexivity.
  - repeat case_decide; done.
Qed.

(** C9.  On the logits of one generation step, of shape (k, 1, vocabulary),
    greedy sampling returns a tensor of one dimension with k entries, the
    arg-max of each sequence; for k = 1, where the squeeze leaves no
    dimension at all, that is a tensor of shape (1). *)
Theorem sample_is_vector (dist : tensor R) (k V : nat) :
  shape dist = [k; 1; V] →
  1 ≤ V →
  _sample dist "greedy" = Ok (Tensor [k] (greedy_tokens k V (data dist)))
  ∧ vector (Tensor [k] (greedy_tokens k V (data dist))) = Ok (greedy_tokens k V (data dist))
  ∧ length (greedy_tokens k V (data dist)) = k
  ∧ (k = 1 → shape (squeeze (Tensor [k; 1; 1] (greedy_tokens k V (data dist)))) = []).
Proof.
  intros Hs HV. split; [|split; [|split]].
  - by apply sample_greedy.
  - reflexivity.
  - apply length_greedy_tokens.
  - intros ->. reflexivity.
Qed.

(** Another mode leaves [sample] unassigned. *)
Lemma sample_other_mode (dist : tensor R) (mode : string) :
  mode ≠ "greedy" → _sample dist mode = Raise (UnboundLocalError "sample").
Proof.
  intros Hm. unfold _sample. by destruct (String.eqb_spec mode "greedy").
Qed.

End Sampling.

(** Logits for a single active sequence over five words. *)
Definition single_logits : tensor (R (Numerics:=toy_numerics)) :=
  Tensor [1; 1; 5] [4; 0; 0; 0; 0]%Z.

Lemma sample_is_vector_witness :
  _sample (N:=toy_numerics) single_logits "greedy" = Ok (Tensor [1] [4%Z]).
Proof.
  apply (sample_is_vector (N:=toy_numerics) single_logits 1 5); [reflexivity|lia].
Defined.

(** * Index bookkeeping of the generation loop *)

Section Bookkeeping.

(** The positions a mask selects, in increasing order. *)
Definition positions (mask : list bool) : list nat := select (seq 0 (length mask)) mask.

Lemma select_fmap {A B} (f : A → B) (v : list A) (mask : list bool) :
  select (f <$> v) mask = f <$> select v mask.
Proof.
  revert mask. induction v as [|a v IH]; intros [|[] mask]; simpl; try done.
  by rewrite IH.
Qed.

Lemma positions_cons (b : bool) (mask : list bool) :
  positions (b :: mask) = if b then 0 :: (S <$> positions mask) else S <$> positions mask.
Proof.
  unfold positions. simpl. rewrite <- fmap_S_seq, select_fmap. by destruct b.
Qed.

Lemma select_sublist {A} (v : list A) (mask : list bool) : select v mask `sublist_of` v.
Proof.
  revert mask. induction v as [|a v IH]; intros [|[] mask]; simpl.
  - constructor.
  - constructor.
  - constructor.
  - apply sublist_nil_l.
  - by apply sublist_skip.
  - by apply sublist_cons.
Qed.

Lemma length_select {A B} (v : list A) (w : list B) (mask : list bool) :
  length v = length w → length (select v mask) = length (select w mask).
Proof.
  revert w mask. induction v as [|a v IH]; intros [|b w] [|[] mask] Hl;
    simpl in *; try done; auto.
Qed.

Lemma select_all {A} (v : list A) : select v (replicate (length v) true) = v.
Proof. induction v; simpl; by f_equal. Qed.

Lemma positions_all (n : nat) : positions (replicate n true) = seq 0 n.
Proof.
  unfold positions. rewrite length_replicate.
  pose proof (select_all (seq 0 n)) as H. by rewrite length_seq in H.
Qed.

Lemma positions_lt (mask : list bool) (i : nat) : i ∈ positions mask → i < length mask.
Proof.
  intros Hi. eapply elem_of_sublist in Hi; [|apply select_sublist].
  apply elem_of_seq in Hi. lia.
Qed.

Lemma NoDup_positions (mask : list bool) : NoDup (positions mask).
Proof.
  apply (sublist_NoDup _ (seq 0 (length mask))); [apply NoDup_seq|apply select_sublist].
Qed.

(** A position is selected exactly when the mask holds [true] there. *)
Lemma elem_of_positions (mask : list bool) (i : nat) :
  i ∈ positions mask ↔ mask !! i = Some true.
Proof.
  revert i. induction mask as [|b mask IH]; intros i.
  - unfold positions. simpl. split; [by intros ?%elem_of_nil|done].
  - rewrite positions_cons. destruct i as [|i]; simpl.
    + destruct b.
      * split; [done|intros _; left].
      * split; [|done]. intros (j & [=] & _)%list_elem_of_fmap.
    + rewrite <- IH. destruct b.
      * rewrite elem_of_cons. split.
        -- intros [[=]|(j & [= ->] & Hj)%list_elem_of_fmap]. done.
        -- intros Hi. right. apply list_elem_of_fmap. eauto.
      * split.
        -- intros (j & [= ->] & Hj)%list_elem_of_fmap. done.
        -- intros Hi. apply list_elem_of_fmap. eauto.
Qed.

Lemma scatter_cons {A} i (idx : list nat) v (vals l : list A) :
  scatter (i :: idx) (v :: vals) l = scatter idx vals (<[i:=v]> l).
Proof. reflexivity. Qed.

Lemma scatter_S {A} (idx : list nat) (vals : list A) (x : A) (l : list A) :
  scatter (S <$> idx) vals (x :: l) = x :: scatter idx vals l.
Proof.
  revert vals l. induction idx as [|i idx IH]; intros [|v vals] l; try done.
  rewrite fmap_cons, !scatter_cons. simpl. apply IH.
Qed.

Lemma length_scatter {A} (idx : list nat) (vals l : list A) :
  length (scatter idx vals l) = length l.
Proof.
  revert vals l. induction idx as [|i idx IH]; intros [|v vals] l; try done.
  rewrite scatter_cons, IH. apply length_insert.
Qed.

(** Writing to positions not among the indices leaves an entry alone. *)
Lemma scatter_lookup_other {A} (idx : list nat) (vals l : list A) (i : nat) :
  i ∉ idx → scatter idx vals l !! i = l !! i.
Proof.
  revert vals l. induction idx as [|k idx IH]; intros [|v vals] l Hi; try done.
  rewrite scatter_cons, IH by set_solver.
  apply list_lookup_insert_ne. set_solver.
Qed.

(** With distinct indices, position [idx[j]] receives [vals[j]]. *)
Lemma scatter_lookup {A} (idx : list nat) (vals l : list A) (j i : nat) (v : A) :
  NoDup idx → idx !! j = Some i → vals !! j = Some v → i < length l →
  scatter idx vals l !! i = Some v.
Proof.
  revert vals l j. induction idx as [|k idx IH]; intros [|w vals] l j Hnd Hj Hv Hi; try done.
  apply NoDup_cons in Hnd as [Hk Hnd]. rewrite scatter_cons.
  destruct j as [|j]; simpl in *.
  - injection Hj as ->. injection Hv as ->.
    rewrite scatter_lookup_other by done. by apply list_lookup_insert_eq.
  - eapply IH; eauto. by rewrite length_insert.
Qed.

(** The running positions after the mask is updated: those of before whose
    new flag is set. *)
Lemma positions_scatter (mask rm : list bool) :
  length rm = length (positions mask) →
  positions (scatter (positions mask) rm mask) = select (positions mask) rm.
Proof.
  revert rm. induction mask as [|b mask IH]; intros rm Hl.
  - unfold positions at 2 3. simpl. by destruct rm.
  - rewrite positions_cons in *. destruct b.
    + destruct rm as [|r rm]; [done|]. simpl in Hl. rewrite length_fmap in Hl.
      rewrite scatter_cons. simpl. rewrite scatter_S, positions_cons, IH by lia.
      rewrite select_fmap. by destruct r.
    + rewrite length_fmap in Hl.
      rewrite scatter_S, positions_cons, IH by done. by rewrite select_fmap.
Qed.

Lemma broadcast1_same {A} (v : list A) : broadcast1 (length v) v = Ok v.
Proof. unfold broadcast1. by rewrite Nat.eqb_refl. Qed.

Lemma masked_select_same {A} (v : list A) (mask : list bool) :
  length v = length mask → masked_select v mask = Ok (select v mask).
Proof.
  intros Hl. unfold masked_select. rewrite <- Hl, Nat.max_id.
  rewrite broadcast1_same. simpl. rewrite Hl, broadcast1_same. reflexivity.
Qed.

Lemma gather_ok {A} (l : list A) (idx : list nat) :
  (∀ i, i ∈ idx → i < length l) →
  ∃ r, gather l idx = Ok r ∧ length r = length idx
       ∧ ∀ j i, idx !! j = Some i → r !! j = l !! i.
Proof.
  unfold gather. induction idx as [|k idx IH]; intros Hidx.
  - exists []. split_and!; try done.
  - destruct IH as (r & Hr & Hlen & Hlook); [set_solver|].
    destruct (lookup_lt_is_Some_2 l k) as [a Ha]; [apply Hidx; left|].
    exists (a :: r). simpl. rewrite Ha. simpl. rewrite Hr. simpl.
    split_and!; [done|by rewrite Hlen|].
    intros [|j] i; simpl; [by intros [= <-]|apply Hlook].
Qed.

Lemma forallb_lt (idx : list nat) (n : nat) :
  (∀ i, i ∈ idx → i < n) → forallb (λ i, i <? n) idx = true.
Proof.
  intros Hidx. apply forallb_forall. intros i Hi%list_elem_of_In.
  apply Nat.ltb_lt. by apply Hidx.
Qed.

Lemma index_put_positions (mask rm : list bool) :
  length rm = length (positions mask) →
  index_put mask (positions mask) rm = Ok (scatter (positions mask) rm mask).
Proof.
  intros Hl. unfold index_put. rewrite <- Hl, broadcast1_same. simpl.
  rewrite forallb_lt; [done|]. apply positions_lt.
Qed.

Lemma select_seq_lt (n : nat) (mask : list bool) (i : nat) :
  i ∈ select (seq 0 n) mask → i < n.
Proof.
  intros Hi. eapply elem_of_sublist in Hi; [|apply select_sublist].
  apply elem_of_seq in Hi. lia.
Qed.

End Bookkeeping.

(** * The generation loop

    The loop of lines 159-200, for every configuration, run from an initial
    hidden state of the shape the recurrent cell takes. *)

Section Generation.
Context {N : Numerics}.
Variables (a : ctor_args) (kind : rnn_kind) (batch_size : nat).
Hypothesis vocabulary : 1 ≤ arg_vocab_size a.

Local Abbreviation m := (build a kind).
Local Abbreviation L := (arg_max_sequence_length a).
Local Abbreviation H := (arg_hidden_size a).
Local Abbreviation eos := (arg_eos_idx a).
Local Abbreviation pad := (arg_pad_idx a).

(** What a row of the buffer holds after [t] steps, for a sequence that is
    still running ([b = true]) and for one that has finished. *)
Definition row_ok (t : nat) (b : bool) (r : list Z) : Prop :=
  length r = L
  ∧ if b
    then (∀ q, q < t → r !! q ≠ Some eos) ∧ (∀ q, t ≤ q → q < L → r !! q = Some pad)
    else ∃ p, p < t ∧ r !! p = Some eos ∧ ∀ q, p < q → q < L → r !! q = Some pad.

(** The loop invariant. *)
Record inv (s : gen_state) : Prop := Inv {
  inv_t : t_ s ≤ L;
  inv_mask : length (sequence_mask s) = batch_size;
  inv_running : sequence_running s = positions (sequence_mask s);
  inv_local : running_seqs s = seq 0 (length (sequence_running s));
  inv_hidden : 0 < length (sequence_running s) →
               shape (hidden s) = hidden_shape (decoder_rnn m) (length (sequence_running s));
  inv_input : 0 < length (sequence_running s) →
              if t_ s =? 0 then length (sequence_running s) = batch_size
              else ∃ inp, input_sequence s = Some inp
                          ∧ length inp = length (sequence_running s);
  inv_width : width (generations s) = L;
  inv_rows : length (mrows (generations s)) = batch_size;
  inv_row : ∀ i r b, mrows (generations s) !! i = Some r → sequence_mask s !! i = Some b →
                     row_ok (t_ s) b r
}.

Lemma row_ok_running (t : nat) (v : Z) (r : list Z) :
  t < L → row_ok t true r → row_ok (S t) (negb (v =? eos)%Z) (<[t:=v]> r).
Proof.
  intros Ht (Hlen & Hbefore & Hafter). split; [by rewrite length_insert|].
  destruct (Z.eqb_spec v eos) as [->|Hv]; simpl.
  - exists t. split_and!; [lia|apply list_lookup_insert_eq; lia|].
    intros q Hq HqL. rewrite list_lookup_insert_ne by lia. apply Hafter; lia.
  - split.
    + intros q Hq. destruct (decide (q = t)) as [->|Hne].
      * rewrite list_lookup_insert_eq by lia. congruence.
      * rewrite list_lookup_insert_ne by done. apply Hbefore. lia.
    + intros q Hq HqL. rewrite list_lookup_insert_ne by lia. apply Hafter; lia.
Qed.

Lemma row_ok_finished (t : nat) (r : list Z) :
  row_ok t false r → row_ok (S t) false r.
Proof.
  intros (Hlen & p & Hp & Heos & Hafter). split; [done|].
  exists p. split_and!; [lia|done..].
Qed.

Lemma decoder_rnn_step_ok (input hidden : tensor R) (k : nat) :
  shape input = [k; 1; arg_embedding_size a] →
  shape hidden = hidden_shape (decoder_rnn m) k →
  ∃ output hidden', decoder_rnn_step m input hidden = Ok (output, hidden')
                    ∧ shape output = [k; 1; directions (arg_bidirectional a) * H]
                    ∧ shape hidden' = hidden_shape (decoder_rnn m) k.
Proof.
  intros Hi Hh. unfold decoder_rnn_step. rewrite Hi. simpl.
  rewrite Nat.eqb_refl. simpl.
  rewrite bool_decide_eq_true_2 by done.
  simpl. eexists _, _. split; [reflexivity|]. done.
Qed.

Lemma logits_ok (output : tensor R) (k : nat) :
  shape output = [k; 1; directions (arg_bidirectional a) * H] →
  ∃ logits, apply_linear (outputs2vocab m) outputs2vocab_fn output = Ok logits
            ∧ shape logits = [k; 1; arg_vocab_size a].
Proof.
  intros Ho. unfold apply_linear. rewrite Ho. simpl.
  rewrite (Nat.mul_comm H), Nat.eqb_refl.
  eexists. split; reflexivity.
Qed.

(** [_save_sample] writes the token of every running sequence into column
    [t] of its row, and nothing else. *)
Lemma save_sample_ok (save_to : matrix) (sample : list Z) (mask : list bool) (t : nat) :
  length (mrows save_to) = length mask →
  length sample = length (positions mask) →
  t < width save_to →
  ∃ rows', _save_sample save_to sample (positions mask) t = Ok (Matrix (width save_to) rows')
    ∧ length rows' = length (mrows save_to)
    ∧ (∀ i j v r, positions mask !! j = Some i → sample !! j = Some v →
                  mrows save_to !! i = Some r → rows' !! i = Some (<[t:=v]> r))
    ∧ (∀ i, i ∉ positions mask → rows' !! i = mrows save_to !! i).
Proof.
  intros Hrows Hsample Ht. unfold _save_sample.
  destruct (gather_ok (mrows save_to) (positions mask)) as (rl & -> & Hlen & Hrl).
  { intros i Hi%positions_lt. lia. }
  simpl. assert ((t <? width save_to) = true) as -> by (by apply Nat.ltb_lt). simpl.
  rewrite Hlen, <- Hsample, broadcast1_same. simpl.
  eexists. split; [reflexivity|]. split_and!.
  - apply length_scatter.
  - intros i j v r Hj Hv Hr. eapply scatter_lookup; eauto using NoDup_positions.
    + rewrite lookup_zip_with, (Hrl _ _ Hj), Hr. simpl. by rewrite Hv.
    + by eapply lookup_lt_Some.
  - intros i Hi. by apply scatter_lookup_other.
Qed.

Lemma result_bind_ok {A B} (x : A) (k : A → result B) : (Ok x ≫= k) = k x.
Proof. reflexivity. Qed.

(** One iteration from a state that satisfies the invariant and the loop
    condition: it does not raise, it re-establishes the invariant, it
    advances [t] by one, and the sequences that run afterwards are among
    those that ran before. *)
Lemma step_ok (s : gen_state) :
  inv s → running m s = true →
  ∃ s', step m batch_size s = Ok s'
        ∧ inv s'
        ∧ t_ s' = S (t_ s)
        ∧ sequence_running s' `sublist_of` sequence_running s.
Proof.
  intros [Ht Hmask Hrun Hlocal Hhid Hinp Hw Hrows Hrow] Hguard.
  unfold running in Hguard. apply andb_true_iff in Hguard as [HtL Hk].
  apply Nat.ltb_lt in HtL, Hk. simpl in HtL.
  rewrite Hlocal, length_seq in Hk.
  specialize (Hhid Hk). specialize (Hinp Hk).
  set (k := length (sequence_running s)) in *.
  assert (∃ inp, (if t_ s =? 0 then Some (to_var (replicate batch_size (sos_idx m)))
                  else input_sequence s) = Some inp ∧ length inp = k) as (inp & Einp & Hlen).
  { destruct (t_ s =? 0).
    - eexists. split; [reflexivity|]. unfold to_var. by rewrite length_replicate.
    - done. }
  unfold step. rewrite Einp. simpl of_option. rewrite result_bind_ok.
  destruct (decoder_rnn_step_ok (embedding m (Tensor [length inp; 1] inp)) (hidden s) k)
    as (output & hidden' & -> & Hout & Hhid'); [by rewrite Hlen|done|].
  rewrite result_bind_ok.
  destruct (logits_ok output k Hout) as (logits & -> & Hlogits).
  rewrite result_bind_ok.
  rewrite (sample_greedy logits k _ Hlogits vocabulary), result_bind_ok.
  rewrite vector_of_shape, result_bind_ok.
  pose proof (length_greedy_tokens k (arg_vocab_size a) (data logits)) as Htok.
  set (tokens := greedy_tokens k (arg_vocab_size a) (data logits)) in *.
  set (rm := map (λ v, negb (v =? eos_idx m)%Z) tokens).
  assert (length rm = k) as Hrm by (unfold rm; by rewrite length_map).
  rewrite Hrun.
  destruct (save_sample_ok (generations s) tokens (sequence_mask s) (t_ s))
    as (rows' & -> & Hrows' & Hwritten & Hkept);
    [by rewrite Hrows, Hmask|by rewrite <- Hrun|by rewrite Hw|].
  rewrite result_bind_ok.
  rewrite index_put_positions by (by rewrite Hrm, <- Hrun).
  rewrite result_bind_ok.
  set (mask' := scatter (positions (sequence_mask s)) rm (sequence_mask s)).
  assert (length mask' = batch_size) as Hmask'.
  { unfold mask'. by rewrite length_scatter. }
  assert (positions mask' = select (sequence_running s) rm) as Hpos'.
  { unfold mask'. rewrite Hrun. apply positions_scatter. by rewrite Hrm, <- Hrun. }
  rewrite (masked_select_same (seq 0 batch_size) mask') by (by rewrite length_seq).
  rewrite result_bind_ok.
  replace (select (seq 0 batch_size) mask') with (positions mask')
    by (unfold positions; by rewrite Hmask').
  rewrite Hlocal, (masked_select_same (seq 0 k) rm) by (by rewrite length_seq).
  rewrite result_bind_ok.
  set (sel := select (seq 0 k) rm).
  assert (length sel = length (positions mask')) as Hsel.
  { rewrite Hpos'. apply length_select. by rewrite length_seq. }
  assert (∀ i r b, rows' !! i = Some r → mask' !! i = Some b → row_ok (S (t_ s)) b r)
    as Hrow'.
  { intros i r b Hr Hb.
    destruct (decide (i ∈ positions (sequence_mask s))) as [Hi|Hi].
    - apply list_elem_of_lookup in Hi as Hj. destruct Hj as [j Hj].
      assert (j < k) as Hjk by (apply lookup_lt_Some in Hj; by rewrite <- Hrun in Hj).
      destruct (lookup_lt_is_Some_2 tokens j) as [v Hv]; [lia|].
      destruct (lookup_lt_is_Some_2 (mrows (generations s)) i) as [r0 Hr0].
      { apply positions_lt in Hi. lia. }
      rewrite (Hwritten _ _ _ _ Hj Hv Hr0) in Hr. injection Hr as <-.
      unfold mask' in Hb.
      erewrite scatter_lookup in Hb;
        [|apply NoDup_positions|exact Hj|unfold rm; by rewrite list_lookup_fmap, Hv
         |by apply positions_lt].
      injection Hb as <-. apply row_ok_running; [done|].
      apply (Hrow i); [done|by apply elem_of_positions].
    - rewrite Hkept in Hr by done.
      unfold mask' in Hb. rewrite scatter_lookup_other in Hb by done.
      destruct b; [by apply elem_of_positions in Hb|].
      apply row_ok_finished. by apply (Hrow i).
  }
  destruct (0 <? length sel) eqn:Esel.
  - apply Nat.ltb_lt in Esel.
    destruct (gather_ok tokens sel) as (inp' & -> & Hinp' & _).
    { intros i Hi%select_seq_lt. lia. }
    rewrite result_bind_ok. unfold index_select1. rewrite Hhid'. unfold hidden_shape at 1.
    rewrite forallb_lt by apply select_seq_lt. simpl.
    eexists. split; [reflexivity|]. split_and!; simpl; [|done|rewrite Hpos', Hrun; apply select_sublist].
    constructor; simpl; try done.
    + by rewrite Hsel.
    + intros _. by rewrite Hsel.
    + intros _. exists inp'. split; [done|]. by rewrite Hinp', Hsel.
    + by rewrite Hrows'.
  - apply Nat.ltb_ge in Esel. assert (length sel = 0) as Hsel0 by lia.
    eexists. split; [reflexivity|]. split_and!; simpl; [|done|rewrite Hpos', Hrun; apply select_sublist].
    constructor; simpl; try done.
    + rewrite <- Hsel, Hsel0. by apply nil_length_inv.
    + intros ?. lia.
    + intros ?. lia.
    + by rewrite Hrows'.
Qed.

Lemma running_iff (s : gen_state) :
  inv s → running m s = true ↔ t_ s < L ∧ sequence_running s ≠ [].
Proof.
  intros Hinv. unfold running. rewrite andb_true_iff, !Nat.ltb_lt.
  rewrite (inv_local _ Hinv), length_seq. simpl.
  destruct (sequence_running s); simpl; split; intros []; split; try done; lia.
Qed.

Lemma not_running_iff (s : gen_state) :
  inv s → running m s = false ↔ t_ s = L ∨ sequence_running s = [].
Proof.
  intros Hinv. pose proof (running_iff s Hinv) as Hr. pose proof (inv_t _ Hinv) as Ht.
  destruct (running m s).
  - split; [done|]. destruct Hr as [Hr _]. destruct (Hr eq_refl) as [? ?].
    intros [?|?]; [lia|done].
  - split; [|done]. intros _.
    destruct (decide (t_ s = L)); [by left|].
    destruct (sequence_running s) eqn:E; [by right|].
    destruct Hr as [_ Hr]. discriminate Hr. split; [lia|done].
Qed.

Lemma initial_inv (hidden0 : tensor R) :
  shape hidden0 = hidden_shape (decoder_rnn m) batch_size →
  inv (initial_state m batch_size hidden0).
Proof.
  intros Hh. constructor; simpl.
  - lia.
  - apply length_replicate.
  - by rewrite positions_all.
  - by rewrite length_seq.
  - by rewrite length_seq.
  - by rewrite length_seq.
  - done.
  - apply length_replicate.
  - intros i r b [-> _]%lookup_replicate [-> _]%lookup_replicate.
    split; [apply length_replicate|]. split; [lia|].
    intros q _ Hq. by apply lookup_replicate.
Qed.

(** A run of the loop from a state that satisfies the invariant, with fuel
    for the steps that are left. *)
Lemma loop_run (fuel : nat) (s : gen_state) :
  inv s → L - t_ s ≤ fuel →
  (∀ i s1 s2, loop_states m batch_size fuel s !! i = Some s1 →
              loop_states m batch_size fuel s !! S i = Some s2 →
              t_ s2 = S (t_ s1) ∧ sequence_running s2 `sublist_of` sequence_running s1)
  ∧ (∀ i s1, loop_states m batch_size fuel s !! i = Some s1 →
             (is_Some (loop_states m batch_size fuel s !! S i)
              ↔ t_ s1 < L ∧ sequence_running s1 ≠ []))
  ∧ ∃ final, while_loop m batch_size fuel s = Ok final
             ∧ last (loop_states m batch_size fuel s) = Some final
             ∧ inv final
             ∧ (t_ final = L ∨ sequence_running final = []).
Proof.
  revert s. induction fuel as [|fuel IH]; intros s Hinv Hfuel.
  - assert (running m s = false) as Hstop.
    { apply not_running_iff; [done|]. left. pose proof (inv_t _ Hinv). lia. }
    simpl. rewrite Hstop. split_and!.
    + intros [|i] s1 s2; simpl; done.
    + intros [|i] s1; simpl; [|done]. intros [= <-]. split; [by intros [? [=]]|].
      intros Hr%running_iff; [congruence|done].
    + exists s. split_and!; try done. by apply not_running_iff.
  - simpl. destruct (running m s) eqn:Hrun.
    + destruct (step_ok s Hinv Hrun) as (s' & Hstep & Hinv' & Ht' & Hsub).
      rewrite Hstep. rewrite result_bind_ok.
      destruct (IH s' Hinv') as (Hmono & Hcont & final & Hloop & Hlast & Hfinal); [lia|].
      assert (loop_states m batch_size fuel s' !! 0 = Some s') as Hhead.
      { by destruct fuel. }
      split_and!.
      * intros [|i] s1 s2; simpl.
        -- intros [= <-]. rewrite Hhead. by intros [= <-].
        -- apply Hmono.
      * intros [|i] s1; simpl.
        -- intros [= <-]. rewrite Hhead. split; [|by eexists].
           intros _. by apply running_iff.
        -- apply Hcont.
      * destruct Hfinal as [Hinvf Hstop]. exists final. split_and!; try done.
        by rewrite last_cons, Hlast.
    + split_and!.
      * intros [|i] s1 s2; simpl; done.
      * intros [|i] s1; simpl; [|done]. intros [= <-]. split; [by intros [? [=]]|].
        intros Hr%running_iff; [congruence|done].
      * exists s. split_and!; try done. by apply not_running_iff.
Qed.

(** The loop by itself.  From one evaluation of the loop condition to
    the next, [t] advances by one and the running sequences are among those
    that ran before; the loop goes on exactly from the states with [t]
    below [max_sequence_length] and some sequence running; and it ends,
    without raising, in the first state where [t] is [max_sequence_length]
    or no sequence runs. *)
Lemma generation_loop (hidden0 : tensor R) :
  shape hidden0 = hidden_shape (decoder_rnn m) batch_size →
  let states := loop_states m batch_size L (initial_state m batch_size hidden0) in
  (∀ i s1 s2, states !! i = Some s1 → states !! S i = Some s2 →
              t_ s2 = S (t_ s1)
              ∧ sequence_running s2 `sublist_of` sequence_running s1
              ∧ length (sequence_running s2) ≤ length (sequence_running s1)
              ∧ ∀ j, j ∉ sequence_running s1 → j ∉ sequence_running s2)
  ∧ (∀ i s1, states !! i = Some s1 →
             (is_Some (states !! S i) ↔ t_ s1 < L ∧ sequence_running s1 ≠ []))
  ∧ ∃ final, while_loop m batch_size L (initial_state m batch_size hidden0) = Ok final
             ∧ last states = Some final
             ∧ (t_ final = L ∨ sequence_running final = []).
Proof.
  intros Hshape.
  destruct (loop_run L (initial_state m batch_size hidden0)) as (Hmono & Hcont & Hend).
  { by apply initial_inv. }
  { simpl. lia. }
  simpl. split_and!.
  - intros i s1 s2 H1 H2. destruct (Hmono i s1 s2 H1 H2) as [Ht Hsub].
    split_and!; [done|done|by apply sublist_length|].
    intros j Hj Hj'. apply Hj. by eapply elem_of_sublist.
  - done.
  - destruct Hend as (final & ? & ? & _ & ?). by exists final.
Qed.

(** The buffer the loop leaves: one row of [max_sequence_length] entries
    per latent vector; a row either holds the end-of-sequence id at some
    position and the pad id at all later ones, or holds a token other than
    end-of-sequence at every position. *)
Definition buffer_ok (buffer : matrix) : Prop :=
  width buffer = L
  ∧ length (mrows buffer) = batch_size
  ∧ ∀ i r, mrows buffer !! i = Some r →
      length r = L
      ∧ ((∃ p, p < L ∧ r !! p = Some eos ∧ ∀ q, p < q → q < L → r !! q = Some pad)
         ∨ (∀ q, q < L → ∃ v, r !! q = Some v ∧ v ≠ eos)).

Lemma generation_buffer (hidden0 : tensor R) :
  shape hidden0 = hidden_shape (decoder_rnn m) batch_size →
  ∃ final, while_loop m batch_size L (initial_state m batch_size hidden0) = Ok final
           ∧ buffer_ok (generations final).
Proof.
  intros Hshape.
  destruct (loop_run L (initial_state m batch_size hidden0))
    as (_ & _ & final & Hloop & _ & Hinv & Hstop).
  { by apply initial_inv. }
  { simpl. lia. }
  exists final. split; [done|].
  destruct Hinv as [Ht Hmask Hrun _ _ _ Hw Hrows Hrow].
  split_and!; [done..|].
  intros i r Hr.
  destruct (lookup_lt_is_Some_2 (sequence_mask final) i) as [b Hb].
  { apply lookup_lt_Some in Hr. lia. }
  destruct (Hrow i r b Hr Hb) as [Hlen Hcontent]. split; [done|].
  destruct b.
  - right. assert (t_ final = L) as HtL.
    { destruct Hstop as [?|Hnone]; [done|].
      apply elem_of_positions in Hb. rewrite <- Hrun, Hnone in Hb. by apply elem_of_nil in Hb. }
    rewrite HtL in Hcontent. destruct Hcontent as [Hno _].
    intros q Hq. destruct (lookup_lt_is_Some_2 r q) as [v Hv]; [lia|].
    exists v. split; [done|]. intros ->. by apply (Hno q Hq).
  - left. destruct Hcontent as (p & Hp & Heos & Hpad). exists p. split_and!; [lia|done..].
Qed.

End Generation.

(** * The loop leaves by its condition or by an exception

    For every configuration: [step] advances [t], so that with fuel for
    [max_sequence_length - t] iterations a run of [while_loop] that returns
    returns a state in which the loop condition is false. *)

Section Fuel.
Context {N : Numerics}.

Lemma step_advances (m : SentenceVAE) (batch_size : nat) (s s' : gen_state) :
  step m batch_size s = Ok s' → t_ s' = S (t_ s).
Proof.
  unfold step, mbind, result_bind.
  repeat match goal with
         | |- Py.bind ?c _ = Ok _ → _ => destruct c as [?|?]; simpl; [|discriminate]
         | |- context [let '(_, _) := ?p in _] => destruct p
         | |- (if ?b then _ else _) = Ok _ → _ => destruct b
         end;
    by intros [= <-].
Qed.

Lemma while_loop_exit (m : SentenceVAE) (batch_size fuel : nat) (s s' : gen_state) :
  max_sequence_length m - t_ s ≤ fuel →
  while_loop m batch_size fuel s = Ok s' →
  running m s' = false.
Proof.
  revert s. induction fuel as [|fuel IH]; intros s Hfuel; simpl.
  - destruct (running m s) eqn:Hrun; intros [= <-]; [|done].
    unfold running in Hrun. apply andb_true_iff in Hrun as [Ht%Nat.ltb_lt _]. lia.
  - destruct (running m s) eqn:Hrun; [|by intros [= <-]].
    destruct (step m batch_size s) as [s1|e] eqn:Hstep; [|done].
    rewrite result_bind_ok. apply IH.
    apply step_advances in Hstep. lia.
Qed.

End Fuel.

(** * [inference] as a whole *)

Section Inference.
Context {N : Numerics}.
Variables (a : ctor_args) (kind : rnn_kind) (batch_size : nat).

Local Abbreviation m := (build a kind).
Local Abbreviation L := (arg_max_sequence_length a).

(** The latent batch of a call: [n] fresh vectors, or the ones supplied. *)
Definition latent_batch (n : nat) (z : option (tensor R)) : Prop :=
  match z with
  | None => n = batch_size
  | Some z0 => shape z0 = [batch_size; arg_latent_size a]
  end.

Lemma inference_unfold (drawn n : nat) (z : option (tensor R)) :
  latent_batch n z →
  ∃ z0, shape z0 = [batch_size; arg_latent_size a]
        ∧ inference m drawn n z
          = (hidden0 ← inference_hidden m batch_size z0 ;
             final ← while_loop m batch_size L (initial_state m batch_size hidden0) ;
             Ok (generations final, z0)).
Proof.
  intros Hz. unfold inference. destruct z as [z0|]; simpl in Hz.
  - exists z0. split; [done|]. unfold size0. by rewrite Hz.
  - subst n. eexists. split; [|reflexivity]. reflexivity.
Qed.

(** With one layer and one direction the generator starts from a hidden
    state of the shape the cell takes. *)
Lemma inference_hidden_single (z : tensor R) :
  arg_num_layers a = 1 → arg_bidirectional a = false →
  shape z = [batch_size; arg_latent_size a] →
  ∃ hidden0, inference_hidden m batch_size z = Ok hidden0
             ∧ shape hidden0 = hidden_shape (decoder_rnn m) batch_size.
Proof.
  intros Hl Hb Hz. destruct (latent2hidden_shape a kind batch_size z Hz) as (h0 & Hh0 & Hs0).
  unfold inference_hidden. rewrite Hh0, result_bind_ok. simpl.
  rewrite Hl, Hb. simpl. eexists. split; [reflexivity|].
  unfold hidden_shape. simpl. rewrite Hs0, Hl, Hb. simpl. by rewrite Nat.mul_1_r.
Qed.

(** With one layer and one direction, and a vocabulary that is not empty,
    [inference] returns a buffer of [batch_size] rows of
    [max_sequence_length] entries, each row as [buffer_ok] says. *)
Theorem inference_single_layer (drawn n : nat) (z : option (tensor R)) :
  arg_num_layers a = 1 → arg_bidirectional a = false →
  1 ≤ arg_vocab_size a →
  latent_batch n z →
  ∃ buffer z', inference m drawn n z = Ok (buffer, z') ∧ buffer_ok a batch_size buffer.
Proof.
  intros Hl Hb HV Hz.
  destruct (inference_unfold drawn n z Hz) as (z0 & Hz0 & ->).
  destruct (inference_hidden_single z0 Hl Hb Hz0) as (hidden0 & -> & Hshape).
  rewrite result_bind_ok.
  destruct (generation_buffer a kind batch_size HV hidden0 Hshape) as (final & -> & Hok).
  rewrite result_bind_ok. by eexists _, _.
Qed.

(** The first iteration raises when the hidden state has another shape
    than the one the recurrent cell takes. *)
Lemma step_raises (hidden0 : tensor R) :
  shape hidden0 ≠ hidden_shape (decoder_rnn m) batch_size →
  step m batch_size (initial_state m batch_size hidden0) = Raise RuntimeError.
Proof.
  intros Hne. unfold step. simpl. unfold to_var. rewrite length_replicate.
  unfold decoder_rnn_step. simpl. rewrite Nat.eqb_refl. simpl.
  by rewrite bool_decide_eq_false_2.
Qed.

Lemma while_loop_raises (fuel : nat) (s : gen_state) (e : exn) :
  running m s = true → step m batch_size s = Raise e → 0 < fuel →
  while_loop m batch_size fuel s = Raise e
  ∧ loop_states m batch_size fuel s = [s].
Proof.
  intros Hrun Hstep Hfuel. destruct fuel as [|fuel]; [lia|].
  simpl. by rewrite Hrun, Hstep.
Qed.

(** C4.  With more than one layer, or two directions, and at least one
    sequence and one step to generate, the loop is entered with a hidden
    state of four dimensions (line 157) and is left by the exception the
    recurrent cell raises in the first iteration: at [t = 0] and with every
    sequence running, not at [t = max_sequence_length] or with the running
    set empty. *)
Theorem generation_loop_aborts (z : tensor R) :
  arg_bidirectional a || (1 <? arg_num_layers a) = true →
  shape z = [batch_size; arg_latent_size a] →
  0 < batch_size → 0 < L →
  ∃ hidden0, inference_hidden m batch_size z = Ok hidden0
    ∧ running m (initial_state m batch_size hidden0) = true
    ∧ step m batch_size (initial_state m batch_size hidden0) = Raise RuntimeError
    ∧ while_loop m batch_size L (initial_state m batch_size hidden0) = Raise RuntimeError
    ∧ loop_states m batch_size L (initial_state m batch_size hidden0)
      = [initial_state m batch_size hidden0]
    ∧ t_ (initial_state m batch_size hidden0) ≠ L
    ∧ sequence_running (initial_state m batch_size hidden0) ≠ [].
Proof.
  intros Hmulti Hz Hbs HL.
  destruct (hidden_multi a kind batch_size z Hmulti Hz) as (h & _ & Hh & Hinf).
  exists (unsqueeze0 h). split; [done|].
  assert (running m (initial_state m batch_size (unsqueeze0 h)) = true) as Hrun.
  { unfold running. simpl. rewrite length_seq.
    apply andb_true_iff. split; by apply Nat.ltb_lt. }
  assert (step m batch_size (initial_state m batch_size (unsqueeze0 h)) = Raise RuntimeError)
    as Hstep.
  { apply step_raises. simpl. rewrite Hh. intros E. apply (f_equal length) in E. done. }
  destruct (while_loop_raises L _ _ Hrun Hstep HL) as [Hloop Hstates].
  split_and!; try done.
  - simpl. lia.
  - simpl. destruct batch_size; [lia|done].
Qed.

(** C2.  With more than one layer, or two directions, and at least one
    sequence and one step to generate, [inference] returns no buffer: it
    raises the error of the recurrent cell, which rejects the initial hidden
    state of four dimensions that line 157 makes. *)
Theorem inference_raises (drawn n : nat) (z : option (tensor R)) :
  arg_bidirectional a || (1 <? arg_num_layers a) = true →
  latent_batch n z →
  0 < batch_size → 0 < L →
  inference m drawn n z = Raise RuntimeError.
Proof.
  intros Hmulti Hz Hbs HL.
  destruct (inference_unfold drawn n z Hz) as (z0 & Hz0 & ->).
  destruct (hidden_multi a kind batch_size z0 Hmulti Hz0) as (h & _ & Hh & ->).
  rewrite result_bind_ok.
  assert (step m batch_size (initial_state m batch_size (unsqueeze0 h)) = Raise RuntimeError)
    as Hstep.
  { apply step_raises. simpl. rewrite Hh. intros E. apply (f_equal length) in E. done. }
  assert (running m (initial_state m batch_size (unsqueeze0 h)) = true) as Hrun.
  { unfold running. simpl. rewrite length_seq.
    apply andb_true_iff. split; by apply Nat.ltb_lt. }
  destruct (while_loop_raises L _ _ Hrun Hstep HL) as [-> _]. reflexivity.
Qed.

End Inference.

(** One latent vector fed to the two-layer model. *)
Lemma inference_raises_witness :
  inference (N:=toy_numerics) (build two_layer_args GRU) 0 1 (Some one_latent)
  = Raise RuntimeError.
Proof.
  apply (inference_raises (N:=toy_numerics) two_layer_args GRU 1 0 1 (Some one_latent));
    [reflexivity|reflexivity|lia|simpl; lia].
Defined.

Lemma generation_loop_aborts_witness :
  ∃ hidden0,
    inference_hidden (N:=toy_numerics) (build two_layer_args GRU) 1 one_latent = Ok hidden0
    ∧ running (build two_layer_args GRU) (initial_state (build two_layer_args GRU) 1 hidden0)
      = true
    ∧ step (build two_layer_args GRU) 1 (initial_state (build two_layer_args GRU) 1 hidden0)
      = Raise RuntimeError
    ∧ while_loop (build two_layer_args GRU) 1 4
        (initial_state (build two_layer_args GRU) 1 hidden0) = Raise RuntimeError
    ∧ loop_states (build two_layer_args GRU) 1 4
        (initial_state (build two_layer_args GRU) 1 hidden0)
      = [initial_state (build two_layer_args GRU) 1 hidden0]
    ∧ t_ (initial_state (build two_layer_args GRU) 1 hidden0) ≠ 4
    ∧ sequence_running (initial_state (build two_layer_args GRU) 1 hidden0) ≠ [].
Proof.
  apply (generation_loop_aborts (N:=toy_numerics) two_layer_args GRU 1 one_latent);
    [reflexivity|reflexivity|lia|simpl; lia].
Defined.

(** Four sequences from the small model (end-of-sequence 3, pad 0): two end
    early, two fill their rows. *)
Example inference_small :
  fst <$> inference (N:=toy_numerics) (build small_args RNN) 0 4 None
  = Ok (Matrix 6 [[2; 3; 0; 0; 0; 0]; [3; 0; 0; 0; 0; 0];
                  [4; 2; 1; 1; 2; 4]; [0; 4; 4; 0; 2; 0]]%Z).
Proof. vm_compute. reflexivity. Qed.

Example inference_small_ok :
  ∃ buffer z', inference (N:=toy_numerics) (build small_args RNN) 0 4 None = Ok (buffer, z')
               ∧ buffer_ok small_args 4 buffer.
Proof.
  apply (inference_single_layer (N:=toy_numerics) small_args RNN 4 0 4 None);
    [reflexivity|reflexivity|simpl; lia|reflexivity].
Qed.

(** * Sorting a batch and restoring its order

    What lines 133-134 and 118-119 set out to do: sort the batch by
    decreasing length, and index the outputs with the sorted positions of
    the sort indices. *)

Section Unsort.

Definition key_le (p q : Z * nat) : Prop := (p.1 ≤ q.1)%Z.

Lemma insert_sorted_perm before (p : Z * nat) (l : list (Z * nat)) :
  insert_sorted before p l ≡ₚ p :: l.
Proof.
  induction l as [|q l IH]; simpl; [done|].
  destruct (before p.1 q.1); [done|].
  rewrite IH. apply Permutation_swap.
Qed.

Lemma sort_pairs_perm before (l : list (Z * nat)) :
  foldr (insert_sorted before) [] l ≡ₚ l.
Proof.
  induction l as [|p l IH]; simpl; [done|].
  by rewrite insert_sorted_perm, IH.
Qed.

Lemma insert_sorted_sorted (p : Z * nat) (l : list (Z * nat)) :
  Sorted key_le l → Sorted key_le (insert_sorted Z.leb p l).
Proof.
  induction 1 as [|q l Hl IH Hq]; simpl.
  - repeat constructor.
  - destruct (Z.leb_spec p.1 q.1) as [Hle|Hlt].
    + constructor; [by constructor|]. by constructor.
    + constructor; [done|].
      destruct Hq as [|r l Hr]; simpl.
      * constructor. unfold key_le. lia.
      * destruct (p.1 <=? r.1)%Z; constructor; [unfold key_le; lia|done].
Qed.

Lemma sort_pairs_sorted (l : list (Z * nat)) :
  Sorted key_le (foldr (insert_sorted Z.leb) [] l).
Proof.
  induction l as [|p l IH]; simpl; [constructor|]. by apply insert_sorted_sorted.
Qed.

Lemma Sorted_keys (l : list (Z * nat)) : Sorted key_le l → Sorted Z.le (l.*1).
Proof.
  induction 1 as [|q l Hl IH Hq]; simpl; constructor; [done|].
  destruct Hq; simpl; by constructor.
Qed.

Lemma Sorted_of_nat_seq (b n : nat) : Sorted Z.le (Z.of_nat <$> seq b n).
Proof.
  revert b. induction n as [|n IH]; intros b; simpl; constructor; [apply IH|].
  destruct n; simpl; constructor. lia.
Qed.

(** The indices of a sort are the positions [0 .. n-1] in some order. *)
Lemma sort_indices_perm (descending : bool) (v : list Z) :
  (torch_sort descending v).2 ≡ₚ seq 0 (length v).
Proof.
  unfold torch_sort. simpl. rewrite sort_pairs_perm.
  rewrite snd_zip; [done|]. by rewrite length_seq.
Qed.

(** Sorting a permutation [π] of the positions in increasing order: the
    index found at place [i] is where [π] holds [i]. *)
Lemma sort_inverts (π : list nat) (n : nat) :
  π ≡ₚ seq 0 n →
  length (torch_sort false (Z.of_nat <$> π)).2 = n
  ∧ ∀ i, i < n → ∃ j, (torch_sort false (Z.of_nat <$> π)).2 !! i = Some j ∧ π !! j = Some i.
Proof.
  intros Hπ. assert (length π = n) as Hn.
  { apply Permutation_length in Hπ. by rewrite length_seq in Hπ. }
  unfold torch_sort. simpl.
  replace (length (Z.of_nat <$> π)) with n by (by rewrite length_fmap).
  set (ps := foldr (insert_sorted Z.leb) [] (zip (Z.of_nat <$> π) (seq 0 n))).
  assert (ps ≡ₚ zip (Z.of_nat <$> π) (seq 0 n)) as Hps by apply sort_pairs_perm.
  assert (ps.*1 = Z.of_nat <$> seq 0 n) as Hkeys.
  { apply (Sorted_unique Z.le).
    - apply Sorted_keys, sort_pairs_sorted.
    - apply Sorted_of_nat_seq.
    - rewrite Hps, fst_zip by (rewrite length_fmap, length_seq; lia). by rewrite Hπ. }
  assert (length ps = n) as Hlen.
  { rewrite <- (length_fmap fst), Hkeys, length_fmap. apply length_seq. }
  split; [by rewrite length_fmap|].
  intros i Hi. destruct (lookup_lt_is_Some_2 ps i) as [[key j] Hp]; [lia|].
  exists j. split; [by rewrite list_lookup_fmap, Hp|].
  assert (key = Z.of_nat i) as ->.
  { assert (ps.*1 !! i = Some key) as Hk by (by rewrite list_lookup_fmap, Hp).
    rewrite Hkeys, list_lookup_fmap, lookup_seq_lt in Hk by done. simpl in Hk. congruence. }
  apply list_elem_of_lookup_2 in Hp. rewrite Hps in Hp.
  apply list_elem_of_lookup in Hp as [pos Hpos].
  apply lookup_zip_with_Some in Hpos as (x & y & [= <- <-] & Hx & Hy).
  apply lookup_seq in Hy as [-> _]. simpl in Hx.
  rewrite list_lookup_fmap in Hx. simpl. destruct (π !! pos) as [w|]; [|done].
  simpl in Hx. injection Hx as Hx. f_equal. lia.
Qed.

(** Sorting the rows of a batch by decreasing length and then indexing
    with the sorted positions of the sort indices gives the batch back. *)
Lemma unsort_sort {A} (lengths : list Z) (batch : list A) :
  length batch = length lengths →
  ∃ sorted, gather batch (torch_sort true lengths).2 = Ok sorted
            ∧ gather sorted (torch_sort false (Z.of_nat <$> (torch_sort true lengths).2)).2
              = Ok batch.
Proof.
  intros Hlen. set (π := (torch_sort true lengths).2).
  pose proof (sort_indices_perm true lengths) as Hπ. fold π in Hπ.
  destruct (sort_inverts π _ Hπ) as [Hrlen Hinv].
  set (ρ := (torch_sort false (Z.of_nat <$> π)).2) in *.
  assert (length π = length lengths) as Hπlen.
  { apply Permutation_length in Hπ. by rewrite length_seq in Hπ. }
  destruct (gather_ok batch π) as (sorted & Hs & Hslen & Hslook).
  { intros i Hi. rewrite Hπ in Hi. apply elem_of_seq in Hi. lia. }
  exists sorted. split; [done|].
  destruct (gather_ok sorted ρ) as (back & Hb & Hblen & Hblook).
  { intros j Hj. apply list_elem_of_lookup in Hj as [i Hi].
    destruct (Hinv i) as (j' & Hj' & Hπj); [apply lookup_lt_Some in Hi; lia|].
    rewrite Hi in Hj'. injection Hj' as <-. apply lookup_lt_Some in Hπj. lia. }
  rewrite Hb. f_equal. apply list_eq. intros i.
  destruct (decide (i < length lengths)) as [Hi|Hi].
  - destruct (Hinv i Hi) as (j & Hj & Hπj).
    by rewrite (Hblook _ _ Hj), (Hslook _ _ Hπj).
  - rewrite !lookup_ge_None_2; [done|lia..].
Qed.

End Unsort.

Example unsort_sort_lengths :
  (torch_sort true [3; 4; 2]%Z).2 = [1; 0; 2]
  ∧ (torch_sort false [1; 0; 2]%Z).2 = [1; 0; 2]
  ∧ gather ["a"; "b"; "c"] [1; 0; 2] = Ok ["b"; "a"; "c"]
  ∧ gather ["b"; "a"; "c"] [1; 0; 2] = Ok ["a"; "b"; "c"].
Proof. repeat split. Qed.

(** * Further properties of the training path *)

Section TrainingPath.
Context {N : Numerics}.

(** What [pack_padded_sequence] checks of the lengths, for a batch of [b]
    rows padded to [T] steps. *)
Definition packable (b T : nat) (lengths : list Z) : Prop :=
  length lengths = b
  ∧ forallb (λ n, (0 <? n)%Z) lengths = true
  ∧ decreasing lengths = true
  ∧ forallb (λ n, (n <=? Z.of_nat T)%Z) lengths = true.

(** Token ids that are rows of the embedding table. *)
Definition in_table (m : SentenceVAE) (x : tensor Z) : Prop :=
  ∀ v, v ∈ data x → (0 ≤ v < Z.of_nat (num_embeddings m))%Z.

Lemma pack_ok (x : tensor R) (b T : nat) (s : list nat) (lengths : list Z) :
  1 ≤ b → shape x = b :: T :: s → packable b T lengths →
  pack_padded_sequence x lengths = Ok (x, map Z.to_nat lengths).
Proof.
  intros Hb Hx (Hlen & Hpos & Hdec & Hmax). unfold pack_padded_sequence.
  assert ((0 <? b) = true) as Hb' by (by apply Nat.ltb_lt).
  rewrite Hx, Hb', Hlen, Nat.eqb_refl, Hpos, Hdec, Hmax. reflexivity.
Qed.

Lemma module_has_no_sorted_idx :
  global module_globals "sorted_idx" = Raise (NameError "sorted_idx").
Proof. vm_compute. reflexivity. Qed.

Lemma decoder_hidden_ok (a : ctor_args) (k : rnn_kind) (bs : nat) (z : tensor R) :
  1 ≤ arg_num_layers a →
  shape z = [bs; arg_latent_size a] →
  ∃ h, decoder_hidden (build a k) bs z = Ok h
       ∧ shape h = hidden_shape (decoder_rnn (build a k)) bs.
Proof.
  intros Hl Hz.
  destruct (arg_bidirectional a || (1 <? arg_num_layers a)) eqn:Hmulti.
  - destruct (hidden_multi a k bs z Hmulti Hz) as (h & ? & ? & _). by exists h.
  - apply orb_false_iff in Hmulti as [Hb Hone]. apply Nat.ltb_ge in Hone.
    assert (arg_num_layers a = 1) as Hl1 by lia.
    destruct (latent2hidden_shape a k bs z Hz) as (h0 & Hh0 & Hs0).
    unfold decoder_hidden. rewrite Hh0, result_bind_ok. simpl.
    rewrite Hb, Hl1. simpl. eexists. split; [reflexivity|].
    unfold hidden_shape. simpl. rewrite Hs0, Hb, Hl1. simpl. by rewrite Nat.mul_1_r.
Qed.

(** X1.  In every configuration with at least one layer, the teacher-forced
    decoder turns a latent batch of shape (batch, latent_size) into an
    initial hidden state of the shape its recurrent network takes,
    (layers × directions, batch, hidden_size). *)
Theorem decoder_hidden_shape (a : ctor_args) (k : rnn_kind) (bs : nat) (z : tensor R) :
  1 ≤ arg_num_layers a →
  shape z = [bs; arg_latent_size a] →
  ∃ h, decoder_hidden (build a k) bs z = Ok h
       ∧ shape h = [arg_num_layers a * directions (arg_bidirectional a); bs;
                    arg_hidden_size a].
Proof. apply decoder_hidden_ok. Qed.

(** X2.  Called with the module's own namespace on a well-formed sorted
    batch, [decoder] runs its recurrent network and then raises [NameError]
    at line 118: [sorted_idx] is neither a parameter nor a name of the
    module.  Well-formed: at least one sequence, token ids and the unknown
    id inside the embedding table (line 106 embeds them when the dropout
    rate is positive), shapes that fit, lengths that the packing takes. *)
Theorem decoder_stops_at_sorted_idx (a : ctor_args) (k : rnn_kind) (σ : store)
    (prob : nat → Q) (x : tensor Z) (x_embed z : tensor R) (lengths : list Z) (bs T : nat) :
  1 ≤ arg_num_layers a →
  1 ≤ bs →
  shape x = [bs; T] →
  in_table (build a k) x →
  (0 ≤ arg_unk_idx a < Z.of_nat (arg_vocab_size a))%Z →
  shape x_embed = [bs; T; arg_embedding_size a] →
  shape z = [bs; arg_latent_size a] →
  packable bs T lengths →
  decoder module_globals σ (build a k) prob x x_embed z lengths
  = Raise (NameError "sorted_idx").
Proof.
  intros Hl Hbs Hx _ _ Hxe Hz Hpack. unfold decoder, size0. rewrite Hx. simpl.
  destruct (decoder_hidden_ok a k bs z Hl Hz) as (h & -> & Hh). rewrite result_bind_ok.
  set (xe := decoder_input (build a k) prob x x_embed).
  assert (shape xe = [bs; T; arg_embedding_size a]) as Hxe'.
  { unfold xe, decoder_input. destruct (Qltb 0 _); [|done].
    unfold embedding, word_dropout. simpl. by rewrite Hx. }
  erewrite pack_ok; [|done|simpl; exact Hxe'|done]. rewrite result_bind_ok.
  unfold decoder_rnn_forward. simpl. rewrite Hxe'. simpl.
  rewrite (bool_decide_eq_true_2 (Some _ = Some _)) by done.
  rewrite (bool_decide_eq_true_2 (shape h = _)).
  - simpl. by rewrite module_has_no_sorted_idx.
  - rewrite Hh, length_map. by destruct Hpack as [-> _].
Qed.

(** X3.  Whatever the module namespace holds and whatever it is given,
    [decoder] returns nothing: past line 118, line 119 reads the local
    [padded_outputs] that it is about to assign. *)
Theorem decoder_raises_always (G : gmap string loc) (σ : store) (m : SentenceVAE)
    (prob : nat → Q) (x : tensor Z) (x_embed z : tensor R) (lengths : list Z) :
  ∃ e, decoder G σ m prob x x_embed z lengths = Raise e.
Proof. apply decoder_never_returns. Qed.

(** X4.  Whatever the module namespace holds and whatever it is given,
    [forward] returns nothing: even with [input_sequence] and [batch_size]
    bound, line 138 calls [decoder] with five arguments for four
    parameters. *)
Theorem forward_raises_always (G : gmap string loc) (m : SentenceVAE) (prob : nat → Q)
    (input_seq length : loc) (σ : store) :
  ∃ e, (forward G m prob input_seq length σ).1 = Raise e.
Proof. apply forward_never_returns. Qed.

End TrainingPath.

Lemma decoder_hidden_shape_witness :
  ∃ h, decoder_hidden (N:=toy_numerics) (build two_layer_args GRU) 1 one_latent = Ok h
       ∧ shape h = [2; 1; 2].
Proof.
  apply (decoder_hidden_shape (N:=toy_numerics) two_layer_args GRU 1 one_latent);
    [simpl; lia|reflexivity].
Defined.

Lemma decoder_stops_at_sorted_idx_witness :
  decoder (N:=toy_numerics) module_globals batch_store (build rnn_args RNN) (λ _, 0%Q)
    (Tensor [2; 4] [2; 5; 6; 3; 2; 7; 3; 0]%Z) (Tensor [2; 4; 8] []) (Tensor [2; 4] [])
    [4; 3]%Z
  = Raise (NameError "sorted_idx").
Proof.
  apply (decoder_stops_at_sorted_idx (N:=toy_numerics) rnn_args RNN batch_store (λ _, 0%Q)
           (Tensor [2; 4] [2; 5; 6; 3; 2; 7; 3; 0]%Z) (Tensor [2; 4; 8] []) (Tensor [2; 4] [])
           [4; 3]%Z 2 4);
    [simpl; lia|lia|reflexivity| |simpl; lia|reflexivity|reflexivity|repeat split].
  intros v Hv. apply list_elem_of_In in Hv. simpl in Hv |- *.
  destruct Hv as [<-|[<-|[<-|[<-|[<-|[<-|[<-|[<-|[]]]]]]]]]; lia.
Defined.

(** * Further properties of the encoder *)

Section Encoding.
Context {N : Numerics}.

Lemma embedding_shape (m : SentenceVAE) (x : tensor Z) (bs T : nat) :
  shape x = [bs; T] → shape (embedding m x) = [bs; T; embedding_dim m].
Proof. intros Hx. unfold embedding. simpl. by rewrite Hx. Qed.

(** The recurrent pass of the encoder on a packed batch. *)
Lemma encoder_rnn_ok (a : ctor_args) (k : rnn_kind) (x : tensor Z) (bs T : nat)
    (lengths : list Z) :
  1 ≤ bs → shape x = [bs; T] → packable bs T lengths →
  ∃ d, (x_packed ← pack_padded_sequence (embedding (build a k) x) lengths ;
        encoder_rnn_forward (build a k) x_packed)
       = Ok (Tensor (hidden_shape (encoder_rnn (build a k)) bs) d).
Proof.
  intros Hbs Hx Hpack.
  erewrite pack_ok; [|done|by apply embedding_shape|done]. rewrite result_bind_ok.
  unfold encoder_rnn_forward. simpl. rewrite Hx. simpl.
  rewrite (bool_decide_eq_true_2 (Some _ = Some _)) by done. simpl.
  rewrite length_map. destruct Hpack as [-> _]. by eexists.
Qed.

(** The flattening of lines 62-65 where it gives one row per sequence. *)
Lemma flatten_hidden_ok (a : ctor_args) (k : rnn_kind) (bs : nat) (d : list R) :
  1 ≤ arg_num_layers a →
  arg_bidirectional a || (1 <? arg_num_layers a) = true
  ∨ (2 ≤ bs ∧ 2 ≤ arg_hidden_size a) →
  ∃ flat, flatten_hidden (build a k) bs (Tensor (hidden_shape (encoder_rnn (build a k)) bs) d)
          = Ok flat
          ∧ shape flat = [bs; arg_hidden_size a
                              * (directions (arg_bidirectional a) * arg_num_layers a)].
Proof.
  intros Hl Hcase. unfold flatten_hidden, hidden_shape. simpl.
  destruct (arg_bidirectional a || (1 <? arg_num_layers a)) eqn:Hmulti.
  - unfold view. simpl.
    assert ((bs * (arg_hidden_size a * (directions (arg_bidirectional a) * arg_num_layers a) * 1)
             =? arg_num_layers a * directions (arg_bidirectional a)
                * (bs * (arg_hidden_size a * 1))) = true) as ->.
    { apply Nat.eqb_eq. lia. }
    by eexists.
  - destruct Hcase as [?|[Hbs Hh]]; [done|].
    apply orb_false_iff in Hmulti as [Hb Hone]. apply Nat.ltb_ge in Hone.
    assert (arg_num_layers a = 1) as Hl1 by lia.
    eexists. split; [reflexivity|]. unfold squeeze. simpl.
    rewrite Hb, Hl1. simpl. rewrite !filter_cons, filter_nil.
    repeat case_decide; first [lia | by rewrite Nat.mul_1_r].
Qed.

Lemma linear_rows (l : linear) (f : list R → list R) (x : tensor R) (bs : nat) :
  shape x = [bs; in_features l] →
  ∃ y, apply_linear l f x = Ok y ∧ shape y = [bs; out_features l].
Proof.
  intros Hx. unfold apply_linear. rewrite Hx. simpl. rewrite Nat.eqb_refl.
  by eexists.
Qed.

(** X5.  On a sorted batch of token ids of shape (batch, steps), with at
    least one sequence, ids inside the embedding table and lengths that the
    packing takes, [encoder] returns its input, the embedded input of shape
    (batch, steps, embedding_size), and a mean and a log-variance of shape
    (batch, latent_size) each: in every configuration with several layers
    or two directions, and with one layer and one direction when the batch
    and the hidden state both have size two or more. *)
Theorem encoder_shapes (a : ctor_args) (k : rnn_kind) (x : tensor Z) (bs T : nat)
    (lengths : list Z) :
  1 ≤ arg_num_layers a →
  arg_bidirectional a || (1 <? arg_num_layers a) = true
  ∨ (2 ≤ bs ∧ 2 ≤ arg_hidden_size a) →
  1 ≤ bs →
  shape x = [bs; T] →
  in_table (build a k) x →
  packable bs T lengths →
  ∃ mean logv,
    encoder (build a k) x lengths = Ok (x, embedding (build a k) x, mean, logv)
    ∧ shape (embedding (build a k) x) = [bs; T; arg_embedding_size a]
    ∧ shape mean = [bs; arg_latent_size a]
    ∧ shape logv = [bs; arg_latent_size a].
Proof.
  intros Hl Hcase Hbs Hx _ Hpack.
  destruct (encoder_rnn_ok a k x bs T lengths Hbs Hx Hpack) as (d & Hrnn).
  destruct (flatten_hidden_ok a k bs d Hl Hcase) as (flat & Hf & Hflat).
  assert (encoder_hidden (build a k) x lengths = Ok (embedding (build a k) x, flat)) as Hh.
  { unfold encoder_hidden, size0. rewrite Hx. simpl lookup. simpl of_option.
    rewrite result_bind_ok.
    destruct (pack_padded_sequence _ lengths) as [packed|e]; [|done].
    rewrite result_bind_ok. change (encoder_rnn_forward (build a k) packed = Ok (Tensor (hidden_shape (encoder_rnn (build a k)) bs) d)) in Hrnn.
    rewrite Hrnn, result_bind_ok, Hf. done. }
  unfold encoder. rewrite Hh, result_bind_ok.
  destruct (linear_rows (hidden2mean (build a k)) hidden2mean_fn flat bs Hflat)
    as (mean & -> & Hmean).
  destruct (linear_rows (hidden2logv (build a k)) hidden2logv_fn flat bs Hflat)
    as (logv & -> & Hlogv).
  exists mean, logv. split; [done|]. split; [|done].
  by apply embedding_shape.
Qed.

(** X6.  With one layer and one direction and a hidden size of two or more,
    [encoder] on a batch of one sequence, its ids inside the embedding
    table, returns a mean and a log-variance of one dimension,
    (latent_size): the batch dimension that line 65 drops does not come
    back. *)
Theorem encoder_batch_of_one_outputs (a : ctor_args) (k : rnn_kind) (x : tensor Z) (T : nat)
    (n : Z) :
  arg_num_layers a = 1 →
  arg_bidirectional a = false →
  2 ≤ arg_hidden_size a →
  shape x = [1; T] →
  in_table (build a k) x →
  (0 < n ≤ Z.of_nat T)%Z →
  ∃ mean logv,
    encoder (build a k) x [n] = Ok (x, embedding (build a k) x, mean, logv)
    ∧ shape mean = [arg_latent_size a]
    ∧ shape logv = [arg_latent_size a].
Proof.
  intros Hl Hb Hh Hx _ Hn. unfold encoder, encoder_hidden, size0. rewrite Hx. simpl.
  erewrite pack_one; [|by apply embedding_shape|done]. simpl.
  unfold encoder_rnn_forward. simpl. rewrite Hx. simpl.
  rewrite (bool_decide_eq_true_2 (Some _ = Some _)) by done. simpl.
  unfold flatten_hidden, hidden_shape. simpl. rewrite Hl, Hb. simpl.
  unfold squeeze. simpl. rewrite !filter_cons, filter_nil.
  destruct (decide (1 ≠ 1)) as [?|_]; [done|].
  destruct (decide (arg_hidden_size a ≠ 1)) as [_|?]; [|lia].
  unfold apply_linear. simpl.
  rewrite Nat.mul_1_r, Nat.eqb_refl. simpl. by eexists _, _.
Qed.

End Encoding.

Lemma encoder_shapes_witness :
  ∃ mean logv,
    encoder (N:=toy_numerics) (build two_layer_args GRU) (Tensor [2; 3] [2; 4; 3; 2; 3; 0]%Z)
      [3; 2]%Z
    = Ok (Tensor [2; 3] [2; 4; 3; 2; 3; 0]%Z,
          embedding (N:=toy_numerics) (build two_layer_args GRU)
            (Tensor [2; 3] [2; 4; 3; 2; 3; 0]%Z), mean, logv)
    ∧ shape (embedding (N:=toy_numerics) (build two_layer_args GRU)
               (Tensor [2; 3] [2; 4; 3; 2; 3; 0]%Z)) = [2; 3; 1]
    ∧ shape mean = [2; 1]
    ∧ shape logv = [2; 1].
Proof.
  apply (encoder_shapes (N:=toy_numerics) two_layer_args GRU
           (Tensor [2; 3] [2; 4; 3; 2; 3; 0]%Z) 2 3 [3; 2]%Z);
    [simpl; lia|left; reflexivity|lia|reflexivity| |repeat split].
  intros v Hv. apply list_elem_of_In in Hv. simpl in Hv |- *.
  destruct Hv as [<-|[<-|[<-|[<-|[<-|[<-|[]]]]]]]; lia.
Defined.

Lemma encoder_batch_of_one_outputs_witness :
  ∃ mean logv,
    encoder (N:=toy_numerics) (build rnn_args RNN) one_sequence [3%Z]
    = Ok (one_sequence, embedding (N:=toy_numerics) (build rnn_args RNN) one_sequence,
          mean, logv)
    ∧ shape mean = [4]
    ∧ shape logv = [4].
Proof.
  apply (encoder_batch_of_one_outputs (N:=toy_numerics) rnn_args RNN one_sequence 3 3%Z);
    [reflexivity|reflexivity|simpl; lia|reflexivity| |lia].
  intros v Hv. apply list_elem_of_In in Hv. simpl in Hv |- *.
  destruct Hv as [<-|[<-|[<-|[]]]]; lia.
Defined.

(** * Flattening and un-flattening the hidden state *)

Section Flattening.
Context {N : Numerics}.

(** In a hidden state of shape (layers × directions, batch, hidden_size):
    the state of layer-direction [l] for sequence [b]. *)
Definition hidden_of (bs H : nat) (d : list R) (l b : nat) : list R :=
  chunk H (l * bs + b) d.

(** The [j]-th block of width [w] inside the [i]-th block of width [w * n]. *)
Lemma chunk_chunk {A} (w n j i : nat) (d : list A) :
  j < n → chunk w j (chunk (w * n) i d) = chunk w (n * i + j) d.
Proof.
  intros Hj. unfold chunk.
  replace (w * n) with (j * w + w * (n - j)) at 1 by nia.
  rewrite <- take_drop_commute, take_take, drop_drop.
  f_equal; [nia|f_equal; nia].
Qed.

(** Lines 88-92 of [decoder] on the projected latent vectors: "unflatten
    hidden state". *)
Definition unflatten_hidden (m : SentenceVAE) (bs : nat) (hidden : tensor R)
  : result (tensor R) :=
  if bidirectional m || (1 <? num_layers m)
  then view [hidden_factor m; bs; hidden_size m] hidden
  else Ok (unsqueeze0 hidden).

Lemma decoder_hidden_unflatten (m : SentenceVAE) (bs : nat) (z : tensor R) :
  decoder_hidden m bs z
  = apply_linear (latent2hidden m) latent2hidden_fn z ≫= unflatten_hidden m bs.
Proof. reflexivity. Qed.

Lemma flatten_multi (a : ctor_args) (k : rnn_kind) (bs : nat) (hidden : tensor R) :
  arg_bidirectional a || (1 <? arg_num_layers a) = true →
  shape hidden = hidden_shape (encoder_rnn (build a k)) bs →
  flatten_hidden (build a k) bs hidden
  = Ok (Tensor [bs; arg_hidden_size a * (directions (arg_bidirectional a) * arg_num_layers a)]
               (data hidden)).
Proof.
  intros Hmulti Hs. unfold flatten_hidden. simpl. rewrite Hmulti.
  unfold view. rewrite Hs. unfold hidden_shape. simpl.
  assert ((bs * (arg_hidden_size a * (directions (arg_bidirectional a) * arg_num_layers a) * 1)
           =? arg_num_layers a * directions (arg_bidirectional a)
              * (bs * (arg_hidden_size a * 1))) = true) as ->; [|done].
  apply Nat.eqb_eq. lia.
Qed.

(** X7.  With several layers or two directions, line 63 reads the final
    hidden state, laid out as (layers × directions, batch, hidden_size), as
    (batch, hidden_size × factor) without moving an entry.  Row [b] of the
    result is made of the blocks [factor * b], ..., [factor * b + factor - 1]
    of that layout, and block [q] is the state of layer-direction
    [q / batch] for sequence [q mod batch]: with two or more sequences, the
    second piece of row 0 is the first layer's state for sequence 1. *)
Theorem flatten_hidden_rows (a : ctor_args) (k : rnn_kind) (bs : nat) (hidden : tensor R) :
  arg_bidirectional a || (1 <? arg_num_layers a) = true →
  shape hidden = hidden_shape (encoder_rnn (build a k)) bs →
  let factor := directions (arg_bidirectional a) * arg_num_layers a in
  ∃ flat, flatten_hidden (build a k) bs hidden = Ok flat
    ∧ shape flat = [bs; arg_hidden_size a * factor]
    ∧ (∀ b j, b < bs → j < factor →
         chunk (arg_hidden_size a) j (chunk (arg_hidden_size a * factor) b (data flat))
         = hidden_of bs (arg_hidden_size a) (data hidden)
             ((factor * b + j) / bs) ((factor * b + j) mod bs))
    ∧ (2 ≤ bs → 2 ≤ factor →
         chunk (arg_hidden_size a) 1 (chunk (arg_hidden_size a * factor) 0 (data flat))
         = hidden_of bs (arg_hidden_size a) (data hidden) 0 1).
Proof.
  intros Hmulti Hs factor. rewrite (flatten_multi a k bs hidden Hmulti Hs).
  eexists. split; [reflexivity|]. split; [reflexivity|]. simpl. split.
  - intros b j Hb Hj. rewrite chunk_chunk by done. unfold hidden_of. f_equal.
    rewrite (Nat.div_mod_eq (factor * b + j) bs) at 1. lia.
  - intros Hbs Hf. rewrite chunk_chunk by lia. unfold hidden_of. f_equal. lia.
Qed.

(** X8.  The un-flattening of [decoder] (lines 88-92) undoes the
    flattening of [encoder] (lines 62-65) on a hidden state of the shape
    the recurrent network returns: with several layers or two directions
    always, with one layer and one direction when neither the batch nor the
    hidden state has size 1. *)
Theorem flatten_unflatten (a : ctor_args) (k : rnn_kind) (bs : nat) (hidden : tensor R) :
  1 ≤ arg_num_layers a →
  arg_bidirectional a || (1 <? arg_num_layers a) = true
  ∨ (bs ≠ 1 ∧ arg_hidden_size a ≠ 1) →
  shape hidden = hidden_shape (encoder_rnn (build a k)) bs →
  flatten_hidden (build a k) bs hidden ≫= unflatten_hidden (build a k) bs = Ok hidden.
Proof.
  intros Hl Hcase Hs. destruct hidden as [s d]. simpl in Hs. subst s.
  destruct (arg_bidirectional a || (1 <? arg_num_layers a)) eqn:Hmulti.
  - rewrite flatten_multi by done. rewrite result_bind_ok.
    unfold unflatten_hidden. simpl. rewrite Hmulti. unfold view, hidden_shape. simpl.
    assert ((directions (arg_bidirectional a) * arg_num_layers a
             * (bs * (arg_hidden_size a * 1))
             =? bs * (arg_hidden_size a
                      * (directions (arg_bidirectional a) * arg_num_layers a) * 1)) = true)
      as -> by (apply Nat.eqb_eq; lia).
    by rewrite (Nat.mul_comm (arg_num_layers a)).
  - destruct Hcase as [?|[Hbs Hh]]; [done|].
    apply orb_false_iff in Hmulti as [Hb Hone]. apply Nat.ltb_ge in Hone.
    assert (arg_num_layers a = 1) as Hl1 by lia.
    unfold flatten_hidden, unflatten_hidden. simpl. rewrite Hb, Hl1. simpl.
    unfold unsqueeze0, squeeze, hidden_shape. simpl. rewrite ?Hb, ?Hl1. simpl.
    rewrite !filter_cons, filter_nil. repeat case_decide; done.
Qed.

End Flattening.

(** Two sequences through two layers of hidden size 2. *)
Definition two_layer_hidden : tensor (R (Numerics:=toy_numerics)) :=
  Tensor [2; 2; 2] [10; 11; 20; 21; 30; 31; 40; 41]%Z.

Lemma flatten_hidden_rows_witness :
  ∃ flat, flatten_hidden (N:=toy_numerics) (build two_layer_args GRU) 2 two_layer_hidden
          = Ok flat
    ∧ shape flat = [2; 4]
    ∧ (∀ b j, b < 2 → j < 2 →
         chunk 2 j (chunk 4 b (data flat))
         = hidden_of (N:=toy_numerics) 2 2 (data two_layer_hidden)
             ((2 * b + j) / 2) ((2 * b + j) mod 2))
    ∧ (2 ≤ 2 → 2 ≤ 2 →
         chunk 2 1 (chunk 4 0 (data flat))
         = hidden_of (N:=toy_numerics) 2 2 (data two_layer_hidden) 0 1).
Proof.
  apply (flatten_hidden_rows (N:=toy_numerics) two_layer_args GRU 2 two_layer_hidden);
    reflexivity.
Defined.

Lemma flatten_unflatten_witness :
  flatten_hidden (N:=toy_numerics) (build two_layer_args GRU) 2 two_layer_hidden
  ≫= unflatten_hidden (N:=toy_numerics) (build two_layer_args GRU) 2
  = Ok two_layer_hidden.
Proof.
  apply (flatten_unflatten (N:=toy_numerics) two_layer_args GRU 2 two_layer_hidden);
    [simpl; lia|left; reflexivity|reflexivity].
Defined.

Example flatten_mixes_sequences :
  data <$> flatten_hidden (N:=toy_numerics) (build two_layer_args GRU) 2 two_layer_hidden
  = Ok [10; 11; 20; 21; 30; 31; 40; 41]%Z
  ∧ hidden_of (N:=toy_numerics) 2 2 (data two_layer_hidden) 0 1 = [20; 21]%Z
  ∧ hidden_of (N:=toy_numerics) 2 2 (data two_layer_hidden) 1 0 = [30; 31]%Z.
Proof. repeat split. Qed.

(** * The token buffer: what [_save_sample] and the loop write *)

Section Buffer.
Context {N : Numerics}.

(** An entry after [scatter] is the old one or one of the values written
    to its position. *)
Lemma scatter_lookup_cases {A} (idx : list nat) (vals l : list A) (i : nat) (y : A) :
  scatter idx vals l !! i = Some y →
  l !! i = Some y ∨ ∃ j, idx !! j = Some i ∧ vals !! j = Some y.
Proof.
  revert vals l. induction idx as [|k idx IH]; intros [|v vals] l; try (by left).
  rewrite scatter_cons. intros [Hy|(j & Hj & Hv)]%IH.
  - apply list_lookup_insert_Some in Hy as [(-> & -> & _)|[_ Hy]]; [|by left].
    right. by exists 0.
  - right. by exists (S j).
Qed.

Lemma gather_inv {A} (l : list A) (idx : list nat) (r : list A) :
  gather l idx = Ok r →
  length r = length idx
  ∧ (∀ i, i ∈ idx → i < length l)
  ∧ ∀ j i, idx !! j = Some i → r !! j = l !! i.
Proof.
  unfold gather. revert r. induction idx as [|k idx IH]; intros r; simpl.
  - intros [= <-]. split_and!; [done|by intros i ?%elem_of_nil|done].
  - destruct (l !! k) as [x|] eqn:Hk; simpl; [|done].
    destruct (mapM _ idx) as [r'|e]; simpl; [|done]. intros [= <-].
    destruct (IH r' eq_refl) as (Hlen & Hin & Hlook). split_and!.
    + simpl. by rewrite Hlen.
    + intros i [->|Hi]%elem_of_cons; [by eapply lookup_lt_Some|by apply Hin].
    + intros [|j] i; simpl; [by intros [= <-]|apply Hlook].
Qed.

(** What a call of [_save_sample] that returns has done, row by row. *)
Lemma save_sample_inv (save_to : matrix) (sample : list Z) (idx : list nat) (t : nat)
    (out : matrix) :
  _save_sample save_to sample idx t = Ok out →
  width out = width save_to
  ∧ length (mrows out) = length (mrows save_to)
  ∧ t < width save_to
  ∧ (∀ i, i ∈ idx → i < length (mrows save_to))
  ∧ ∀ i r', mrows out !! i = Some r' →
      ∃ r, mrows save_to !! i = Some r ∧ (r' = r ∨ (i ∈ idx ∧ ∃ v, r' = <[t:=v]> r)).
Proof.
  unfold _save_sample.
  destruct (gather (mrows save_to) idx) as [rl|e] eqn:Hg; [|done].
  rewrite result_bind_ok.
  destruct (t <? width save_to) eqn:Ht; [|done]. apply Nat.ltb_lt in Ht.
  simpl guard. rewrite result_bind_ok.
  destruct (broadcast1 (length rl) sample) as [column|e]; [|done].
  rewrite result_bind_ok. intros [= <-]. simpl.
  destruct (gather_inv _ _ _ Hg) as (Hlen & Hin & Hlook).
  split_and!; [done|apply length_scatter|done|done|].
  intros i r' [Hr|(j & Hj & Hv)]%scatter_lookup_cases.
  - exists r'. split; [done|by left].
  - apply lookup_zip_with_Some in Hv as (r & v & -> & Hr & Hv).
    rewrite (Hlook _ _ Hj) in Hr. exists r. split; [done|]. right.
    split; [by eapply list_elem_of_lookup_2|by exists v].
Qed.

(** The rows of [new] are those of [old], except for column [t] of the rows
    listed in [idx]. *)
Definition column_written (idx : list nat) (t : nat) (old new : matrix) : Prop :=
  width new = width old
  ∧ length (mrows new) = length (mrows old)
  ∧ ∀ i r, mrows old !! i = Some r →
      ∃ r', mrows new !! i = Some r'
            ∧ length r' = length r
            ∧ (∀ q, q ≠ t → r' !! q = r !! q)
            ∧ (i ∉ idx → r' = r).

Lemma save_sample_column (save_to : matrix) (sample : list Z) (idx : list nat) (t : nat)
    (out : matrix) :
  _save_sample save_to sample idx t = Ok out → column_written idx t save_to out.
Proof.
  intros (Hw & Hlen & _ & _ & Hrow)%save_sample_inv. split; [done|]. split; [done|].
  intros i r Hr. destruct (lookup_lt_is_Some_2 (mrows out) i) as [r' Hr'].
  { rewrite Hlen. by eapply lookup_lt_Some. }
  exists r'. split; [done|].
  destruct (Hrow i r' Hr') as (r0 & Hr0 & Hcase).
  rewrite Hr in Hr0. injection Hr0 as <-.
  destruct Hcase as [->|(Hi & v & ->)]; [done|].
  split_and!; [apply length_insert|by intros q Hq; apply list_lookup_insert_ne|done].
Qed.

(** X9.  Whatever it is given, a call of [_save_sample] that returns has
    kept the shape of the buffer, has changed no row outside
    [running_seqs], and in the rows of [running_seqs] no column other
    than [t]. *)
Theorem save_sample_frame (save_to : matrix) (sample : list Z) (running_seqs : list nat)
    (t : nat) (out : matrix) :
  _save_sample save_to sample running_seqs t = Ok out →
  width out = width save_to
  ∧ length (mrows out) = length (mrows save_to)
  ∧ ∀ i r, mrows save_to !! i = Some r →
      ∃ r', mrows out !! i = Some r'
            ∧ length r' = length r
            ∧ (∀ q, q ≠ t → r' !! q = r !! q)
            ∧ (i ∉ running_seqs → r' = r).
Proof. apply save_sample_column. Qed.

(** X10.  With distinct row indices inside the buffer, one token per index
    and a column inside the buffer, [_save_sample] returns, and the token
    of the [j]-th index is found at column [t] of that row. *)
Theorem save_sample_writes (save_to : matrix) (sample : list Z) (running_seqs : list nat)
    (t : nat) :
  (∀ r, r ∈ mrows save_to → length r = width save_to) →
  NoDup running_seqs →
  (∀ i, i ∈ running_seqs → i < length (mrows save_to)) →
  length sample = length running_seqs →
  t < width save_to →
  ∃ out, _save_sample save_to sample running_seqs t = Ok out
    ∧ ∀ j i v, running_seqs !! j = Some i → sample !! j = Some v →
        ∃ r, mrows out !! i = Some r ∧ r !! t = Some v.
Proof.
  intros Hwf Hnd Hin Hlen Ht. unfold _save_sample.
  destruct (gather_ok (mrows save_to) running_seqs Hin) as (rl & -> & Hrl & Hlook).
  rewrite result_bind_ok.
  assert ((t <? width save_to) = true) as -> by (by apply Nat.ltb_lt).
  simpl guard. rewrite result_bind_ok, Hrl, <- Hlen, broadcast1_same, result_bind_ok.
  eexists. split; [reflexivity|]. simpl. intros j i v Hj Hv.
  destruct (lookup_lt_is_Some_2 (mrows save_to) i) as [r Hr].
  { apply Hin. by eapply list_elem_of_lookup_2. }
  exists (<[t:=v]> r). split.
  - eapply scatter_lookup; [done|exact Hj| |by eapply lookup_lt_Some].
    by rewrite lookup_zip_with, (Hlook _ _ Hj), Hr; simpl; rewrite Hv.
  - apply list_lookup_insert_eq. rewrite (Hwf r); [done|]. by eapply list_elem_of_lookup_2.
Qed.

(** X11.  [_save_sample] raises when the column lies outside the buffer
    or when some row index does; with every row index inside the buffer,
    the exception for the column is [IndexError]. *)
Theorem save_sample_out_of_range (save_to : matrix) (sample : list Z)
    (running_seqs : list nat) (t : nat) :
  width save_to ≤ t ∨ (∃ i, i ∈ running_seqs ∧ length (mrows save_to) ≤ i) →
  ∃ e, _save_sample save_to sample running_seqs t = Raise e
       ∧ ((∀ i, i ∈ running_seqs → i < length (mrows save_to)) → e = IndexError).
Proof.
  intros Hbad. unfold _save_sample.
  destruct (gather (mrows save_to) running_seqs) as [rl|e] eqn:Hg.
  - rewrite result_bind_ok. destruct (gather_inv _ _ _ Hg) as (_ & Hin & _).
    destruct Hbad as [Ht|(i & Hi & Hge)].
    + assert ((t <? width save_to) = false) as -> by (apply Nat.ltb_ge; lia).
      by exists IndexError.
    + apply Hin in Hi. lia.
  - exists e. split; [done|]. intros Hin.
    destruct (gather_ok _ _ Hin) as (r & Hr & _). congruence.
Qed.

(** The buffer after one iteration is the result of [_save_sample] on the
    buffer before it. *)
Lemma step_generations (m : SentenceVAE) (batch_size : nat) (s s' : gen_state) :
  step m batch_size s = Ok s' →
  ∃ sample, _save_sample (generations s) sample (sequence_running s) (t_ s)
            = Ok (generations s').
Proof.
  unfold step.
  destruct (of_option _ _) as [inp|?]; [|done]. rewrite result_bind_ok.
  destruct (decoder_rnn_step _ _ _) as [[output hidden']|?]; [|done]. rewrite result_bind_ok.
  destruct (apply_linear _ _ _) as [logits|?]; [|done]. rewrite result_bind_ok.
  destruct (_sample _ _) as [sample|?]; [|done]. rewrite result_bind_ok.
  destruct (vector _) as [tokens|?]; [|done]. rewrite result_bind_ok.
  destruct (_save_sample _ _ _ _) as [out|?] eqn:Hsave; [|done]. rewrite result_bind_ok.
  destruct (index_put _ _ _) as [mask'|?]; [|done]. rewrite result_bind_ok.
  destruct (masked_select (seq 0 batch_size) _) as [running'|?]; [|done].
  rewrite result_bind_ok.
  destruct (masked_select (running_seqs s) _) as [local'|?]; [|done].
  rewrite result_bind_ok.
  destruct (0 <? length local').
  - destruct (gather _ _) as [inp'|?]; [|done]. rewrite result_bind_ok.
    destruct (index_select1 _ _) as [hidden''|?]; [|done]. rewrite result_bind_ok.
    intros [= <-]. by exists tokens.
  - intros [= <-]. by exists tokens.
Qed.

(** X12.  In every configuration, an iteration of the loop that completes
    writes to the buffer only in column [t] of the rows of the sequences
    that were running: the buffer keeps its shape, every other entry is as
    before. *)
Theorem step_writes_column (m : SentenceVAE) (batch_size : nat) (s s' : gen_state) :
  step m batch_size s = Ok s' →
  t_ s' = S (t_ s)
  ∧ width (generations s') = width (generations s)
  ∧ length (mrows (generations s')) = length (mrows (generations s))
  ∧ ∀ i r, mrows (generations s) !! i = Some r →
      ∃ r', mrows (generations s') !! i = Some r'
            ∧ length r' = length r
            ∧ (∀ q, q ≠ t_ s → r' !! q = r !! q)
            ∧ (i ∉ sequence_running s → r' = r).
Proof.
  intros Hstep. split; [by eapply step_advances|].
  destruct (step_generations _ _ _ _ Hstep) as (sample & Hsave).
  by apply save_sample_column in Hsave.
Qed.

(** Along a run of the loop: the [i]-th evaluation of the loop condition
    finds [t] advanced by [i], and the columns before the [t] of the start
    as they were. *)
Lemma loop_keeps_columns (m : SentenceVAE) (batch_size fuel : nat) (s s' : gen_state)
    (i : nat) :
  loop_states m batch_size fuel s !! i = Some s' →
  t_ s' = t_ s + i
  ∧ width (generations s') = width (generations s)
  ∧ length (mrows (generations s')) = length (mrows (generations s))
  ∧ ∀ k r, mrows (generations s) !! k = Some r →
      ∃ r', mrows (generations s') !! k = Some r'
            ∧ length r' = length r
            ∧ ∀ q, q < t_ s → r' !! q = r !! q.
Proof.
  revert s i. induction fuel as [|fuel IH]; intros s [|i]; simpl.
  - intros [= <-]. split_and!; [lia|done..|]. intros k r Hr. by exists r.
  - by destruct (running m s).
  - intros [= <-]. split_and!; [lia|done..|]. intros k r Hr. by exists r.
  - destruct (running m s); [|done].
    destruct (step m batch_size s) as [s1|e] eqn:Hstep; [|done].
    intros Hi. destruct (IH _ _ Hi) as (Ht & Hw & Hlen & Hrows).
    destruct (step_generations _ _ _ _ Hstep) as (sample & Hsave).
    apply save_sample_column in Hsave as (Hw1 & Hlen1 & Hrows1).
    apply step_advances in Hstep.
    split_and!; [lia|congruence|congruence|].
    intros k r Hr. destruct (Hrows1 k r Hr) as (r1 & Hr1 & Hl1 & Hq1 & _).
    destruct (Hrows k r1 Hr1) as (r' & Hr' & Hl' & Hq').
    exists r'. split_and!; [done|congruence|].
    intros q Hq. rewrite Hq' by lia. apply Hq1. lia.
Qed.

(** X13.  In every configuration and from every state, along a run of the
    loop the [i]-th evaluation of the loop condition finds [t] advanced by
    [i], the buffer of the same shape, and every token in a column before
    the [t] of the start as it was: the loop never rewrites a column it has
    passed. *)
Theorem loop_never_rewrites (m : SentenceVAE) (batch_size fuel : nat) (s s' : gen_state)
    (i : nat) :
  loop_states m batch_size fuel s !! i = Some s' →
  t_ s' = t_ s + i
  ∧ width (generations s') = width (generations s)
  ∧ length (mrows (generations s')) = length (mrows (generations s))
  ∧ ∀ k r, mrows (generations s) !! k = Some r →
      ∃ r', mrows (generations s') !! k = Some r'
            ∧ length r' = length r
            ∧ ∀ q, q < t_ s → r' !! q = r !! q.
Proof. apply loop_keeps_columns. Qed.

(** X14.  In every configuration and from every state, the loop condition
    is evaluated at most [max_sequence_length - t + 1] times: the loop body
    runs at most [max_sequence_length - t] times, whether it ends by the
    condition or by an exception. *)
Theorem loop_bounded (m : SentenceVAE) (batch_size fuel : nat) (s : gen_state) :
  length (loop_states m batch_size fuel s) ≤ S (max_sequence_length m - t_ s).
Proof.
  revert s. induction fuel as [|fuel IH]; intros s; simpl.
  - destruct (running m s); simpl; lia.
  - destruct (running m s) eqn:Hrun; simpl; [|lia].
    destruct (step m batch_size s) as [s1|e] eqn:Hstep; simpl; [|lia].
    unfold running in Hrun. apply andb_true_iff in Hrun as [Ht%Nat.ltb_lt _].
    apply step_advances in Hstep. specialize (IH s1). lia.
Qed.

End Buffer.

(** A buffer of three rows; the sequences 0 and 2 are running. *)
Definition small_buffer : matrix := Matrix 4 [[2; 0; 0; 0]; [3; 0; 0; 0]; [4; 0; 0; 0]]%Z.

Lemma save_sample_frame_witness :
  width (Matrix 4 [[2; 7; 0; 0]; [3; 0; 0; 0]; [4; 9; 0; 0]]%Z) = width small_buffer
  ∧ length (mrows (Matrix 4 [[2; 7; 0; 0]; [3; 0; 0; 0]; [4; 9; 0; 0]]%Z))
    = length (mrows small_buffer)
  ∧ ∀ i r, mrows small_buffer !! i = Some r →
      ∃ r', mrows (Matrix 4 [[2; 7; 0; 0]; [3; 0; 0; 0]; [4; 9; 0; 0]]%Z) !! i = Some r'
            ∧ length r' = length r
            ∧ (∀ q, q ≠ 1 → r' !! q = r !! q)
            ∧ (i ∉ [0; 2] → r' = r).
Proof.
  apply (save_sample_frame small_buffer [7; 9]%Z [0; 2] 1). reflexivity.
Defined.

Lemma save_sample_writes_witness :
  ∃ out, _save_sample small_buffer [7; 9]%Z [0; 2] 1 = Ok out
    ∧ ∀ j i v, [0; 2] !! j = Some i → [7; 9]%Z !! j = Some v →
        ∃ r, mrows out !! i = Some r ∧ r !! 1 = Some v.
Proof.
  apply (save_sample_writes small_buffer [7; 9]%Z [0; 2] 1).
  - intros r Hr. apply list_elem_of_In in Hr. simpl in Hr.
    destruct Hr as [<-|[<-|[<-|[]]]]; reflexivity.
  - apply (bool_decide_unpack (NoDup [0; 2])). vm_compute. exact I.
  - intros i Hi. apply list_elem_of_In in Hi. simpl in Hi.
    destruct Hi as [<-|[<-|[]]]; simpl; lia.
  - reflexivity.
  - simpl. lia.
Defined.

Lemma save_sample_out_of_range_witness :
  ∃ e, _save_sample small_buffer [7; 9]%Z [0; 2] 4 = Raise e
       ∧ ((∀ i, i ∈ [0; 2] → i < length (mrows small_buffer)) → e = IndexError).
Proof.
  apply (save_sample_out_of_range small_buffer [7; 9]%Z [0; 2] 4). left. simpl. lia.
Defined.

(** * Further properties of generation *)

Section Generating.
Context {N : Numerics}.
Variables (a : ctor_args) (kind : rnn_kind) (batch_size : nat).

Local Abbreviation m := (build a kind).
Local Abbreviation L := (arg_max_sequence_length a).

(** The latent vectors a call of [inference] works on. *)
Definition latents (drawn n : nat) (z : option (tensor R)) : tensor R :=
  match z with
  | Some z0 => z0
  | None => Tensor [n; arg_latent_size a]
                   (map gauss (seq drawn (numel [n; arg_latent_size a])))
  end.

Lemma inference_latents (drawn n : nat) (z : option (tensor R)) :
  latent_batch a batch_size n z →
  shape (latents drawn n z) = [batch_size; arg_latent_size a]
  ∧ inference m drawn n z
    = (hidden0 ← inference_hidden m batch_size (latents drawn n z) ;
       final ← while_loop m batch_size L (initial_state m batch_size hidden0) ;
       Ok (generations final, latents drawn n z)).
Proof.
  intros Hz. unfold inference. destruct z as [z0|]; simpl in Hz.
  - split; [done|]. unfold size0. by rewrite Hz.
  - subst n. done.
Qed.

(** The ids that [inference] writes itself are well-formed: sentence-start
    is a row of the embedding table (line 176 embeds it in the first
    iteration), and sentence-start and pad are integers that a 32-bit float
    holds exactly (lines 166 and 172 fill a float tensor with them and then
    convert it to long). *)
Definition special_ids_ok : Prop :=
  (0 ≤ arg_sos_idx a < Z.of_nat (arg_vocab_size a))%Z
  ∧ (arg_sos_idx a ≤ 2 ^ 24)%Z
  ∧ (Z.abs (arg_pad_idx a) ≤ 2 ^ 24)%Z.

Lemma special_ids_vocabulary : special_ids_ok → 1 ≤ arg_vocab_size a.
Proof. intros (Hsos & _). lia. Qed.

(** In every configuration the initial hidden state of the generator is
    made without an exception. *)
Lemma inference_hidden_returns (z : tensor R) :
  shape z = [batch_size; arg_latent_size a] →
  ∃ hidden0, inference_hidden m batch_size z = Ok hidden0.
Proof.
  intros Hz. destruct (arg_bidirectional a || (1 <? arg_num_layers a)) eqn:Hmulti.
  - destruct (hidden_multi a kind batch_size z Hmulti Hz) as (h & _ & _ & ->). by eexists.
  - destruct (latent2hidden_shape a kind batch_size z Hz) as (h0 & Hh0 & _).
    unfold inference_hidden. rewrite Hh0, result_bind_ok. simpl. rewrite Hmulti.
    by eexists.
Qed.

(** X15.  In every configuration, also with several layers or two
    directions: when there is no latent vector, or when
    [max_sequence_length] is 0, the loop is not entered and [inference]
    returns the buffer as line 166 made it, every entry the pad id,
    together with the latent vectors.  (The tensor library is taken to
    represent tensors with a dimension of size 0.) *)
Theorem inference_loop_not_entered (drawn n : nat) (z : option (tensor R)) :
  latent_batch a batch_size n z →
  batch_size = 0 ∨ L = 0 →
  inference m drawn n z
  = Ok (Matrix L (replicate batch_size (replicate L (arg_pad_idx a))), latents drawn n z).
Proof.
  intros Hz Hempty. destruct (inference_latents drawn n z Hz) as [Hshape ->].
  destruct (inference_hidden_returns _ Hshape) as (hidden0 & ->). rewrite result_bind_ok.
  assert (running m (initial_state m batch_size hidden0) = false) as Hstop.
  { unfold running. simpl. rewrite length_seq. destruct Hempty as [->| ->].
    - apply andb_false_r.
    - reflexivity. }
  assert (while_loop m batch_size L (initial_state m batch_size hidden0)
          = Ok (initial_state m batch_size hidden0)) as ->.
  { destruct L; simpl; by rewrite Hstop. }
  reflexivity.
Qed.

(** X16.  From a hidden state of the shape the recurrent cell takes, in
    every configuration whose sentence-start id is a row of the embedding
    table (and, with the pad id, small enough for the float tensors of
    lines 166 and 172), the loop ends without an exception, after exactly
    as many iterations as the final [t] counts; it ends with
    [t = max_sequence_length] or with no sequence running, the loop
    condition false; no sequence that has stopped runs again; and every row
    of the buffer either holds the end-of-sequence id followed by pad ids
    only, or holds no end-of-sequence id at all. *)
Theorem loop_completes (hidden0 : tensor R) :
  special_ids_ok →
  shape hidden0 = hidden_shape (decoder_rnn m) batch_size →
  let states := loop_states m batch_size L (initial_state m batch_size hidden0) in
  ∃ final, while_loop m batch_size L (initial_state m batch_size hidden0) = Ok final
    ∧ last states = Some final
    ∧ length states = S (t_ final)
    ∧ running m final = false
    ∧ (t_ final = L ∨ sequence_running final = [])
    ∧ (∀ i s1 s2, states !! i = Some s1 → states !! S i = Some s2 →
         ∀ j, j ∉ sequence_running s1 → j ∉ sequence_running s2)
    ∧ width (generations final) = L
    ∧ length (mrows (generations final)) = batch_size
    ∧ ∀ i r, mrows (generations final) !! i = Some r →
        length r = L
        ∧ ((∃ p, p < L ∧ r !! p = Some (arg_eos_idx a)
                 ∧ ∀ q, p < q → q < L → r !! q = Some (arg_pad_idx a))
           ∨ (∀ q, q < L → ∃ v, r !! q = Some v ∧ v ≠ arg_eos_idx a)).
Proof.
  intros HV%special_ids_vocabulary Hshape states.
  destruct (generation_loop a kind batch_size HV hidden0 Hshape)
    as (Hmono & _ & final & Hloop & Hlast & Hstop).
  destruct (generation_buffer a kind batch_size HV hidden0 Hshape)
    as (final' & Hloop' & Hw & Hrows & Hrow).
  rewrite Hloop in Hloop'. injection Hloop' as <-.
  exists final. fold states in Hlast, Hmono. split_and!; try done.
  - rewrite last_lookup in Hlast.
    apply loop_keeps_columns in Hlast as Ht. destruct Ht as [Ht _]. simpl in Ht.
    apply lookup_lt_Some in Hlast. lia.
  - eapply while_loop_exit; [|exact Hloop]. simpl. lia.
  - intros i s1 s2 H1 H2. by destruct (Hmono i s1 s2 H1 H2) as (_ & _ & _ & ?).
Qed.

(** X17.  With one layer and one direction, and a sentence-start id that
    is a row of the embedding table (and, with the pad id, small enough for
    the float tensors of lines 166 and 172), [inference] returns without an
    exception: the latent vectors, those supplied or [n] fresh draws of
    shape (n, latent_size), and a buffer with one row of
    [max_sequence_length] token ids per latent vector. *)
Theorem inference_returns (drawn n : nat) (z : option (tensor R)) :
  arg_num_layers a = 1 → arg_bidirectional a = false →
  special_ids_ok →
  latent_batch a batch_size n z →
  ∃ buffer, inference m drawn n z = Ok (buffer, latents drawn n z)
    ∧ shape (latents drawn n z) = [batch_size; arg_latent_size a]
    ∧ width buffer = L
    ∧ length (mrows buffer) = batch_size
    ∧ ∀ r, r ∈ mrows buffer → length r = L.
Proof.
  intros Hl Hb HV%special_ids_vocabulary Hz.
  destruct (inference_latents drawn n z Hz) as [Hshape ->].
  destruct (inference_hidden_single a kind batch_size _ Hl Hb Hshape) as (hidden0 & -> & Hh).
  rewrite result_bind_ok.
  destruct (generation_buffer a kind batch_size HV hidden0 Hh)
    as (final & -> & Hw & Hrows & Hrow).
  rewrite result_bind_ok. exists (generations final). split_and!; try done.
  intros r [i Hr]%list_elem_of_lookup. by destruct (Hrow i r Hr).
Qed.

End Generating.


(** The first state of the loop for four latent vectors in the small model. *)
Definition small_hidden : tensor (R (Numerics:=toy_numerics)) :=
  Tensor [1; 4; 1] [0; 1; 2; 3]%Z.

Definition small_start : gen_state (N:=toy_numerics) :=
  initial_state (build small_args RNN) 4 small_hidden.

(** The states of that run at the second and at the fourth evaluation of
    the loop condition. *)
Definition small_first : gen_state (N:=toy_numerics) :=
  {| t_ := 1;
     input_sequence := Some [2; 4; 0]%Z;
     hidden := Tensor [1; 3; 1] ([1; 3; 4]%Z : list (R (Numerics:=toy_numerics)));
     sequence_running := [0; 2; 3];
     sequence_mask := [true; false; true; true];
     running_seqs := [0; 1; 2];
     generations := Matrix 6 [[2; 0; 0; 0; 0; 0]; [3; 0; 0; 0; 0; 0];
                              [4; 0; 0; 0; 0; 0]; [0; 0; 0; 0; 0; 0]]%Z |}.

Definition small_third : gen_state (N:=toy_numerics) :=
  {| t_ := 3;
     input_sequence := Some [1; 4]%Z;
     hidden := Tensor [1; 2; 1] ([5; 6]%Z : list (R (Numerics:=toy_numerics)));
     sequence_running := [2; 3];
     sequence_mask := [false; false; true; true];
     running_seqs := [0; 1];
     generations := Matrix 6 [[2; 3; 0; 0; 0; 0]; [3; 0; 0; 0; 0; 0];
                              [4; 2; 1; 0; 0; 0]; [0; 4; 4; 0; 0; 0]]%Z |}.

Example small_run :
  loop_states (build small_args RNN) 4 6 small_start !! 1 = Some small_first
  ∧ loop_states (build small_args RNN) 4 6 small_start !! 3 = Some small_third.
Proof. split; vm_compute; reflexivity. Qed.

Lemma step_writes_column_witness :
  t_ small_first = S (t_ small_start)
  ∧ width (generations small_first) = width (generations small_start)
  ∧ length (mrows (generations small_first)) = length (mrows (generations small_start))
  ∧ ∀ i r, mrows (generations small_start) !! i = Some r →
      ∃ r', mrows (generations small_first) !! i = Some r'
            ∧ length r' = length r
            ∧ (∀ q, q ≠ t_ small_start → r' !! q = r !! q)
            ∧ (i ∉ sequence_running small_start → r' = r).
Proof.
  apply (step_writes_column (N:=toy_numerics) (build small_args RNN) 4 small_start
           small_first).
  vm_compute. reflexivity.
Defined.

Lemma loop_never_rewrites_witness :
  t_ small_third = t_ small_first + 2
  ∧ width (generations small_third) = width (generations small_first)
  ∧ length (mrows (generations small_third)) = length (mrows (generations small_first))
  ∧ ∀ k r, mrows (generations small_first) !! k = Some r →
      ∃ r', mrows (generations small_third) !! k = Some r'
            ∧ length r' = length r
            ∧ ∀ q, q < t_ small_first → r' !! q = r !! q.
Proof.
  apply (loop_never_rewrites (N:=toy_numerics) (build small_args RNN) 4 5 small_first
           small_third 2).
  vm_compute. reflexivity.
Defined.

Lemma inference_loop_not_entered_witness :
  inference (N:=toy_numerics) (build two_layer_args GRU) 0 4 (Some (Tensor [0; 1] []))
  = Ok (Matrix 4 [], Tensor [0; 1] []).
Proof.
  apply (inference_loop_not_entered (N:=toy_numerics) two_layer_args GRU 0 0 4
           (Some (Tensor [0; 1] []))); [reflexivity|by left].
Defined.

Lemma loop_completes_witness :
  ∃ final, while_loop (build small_args RNN) 4 6 small_start = Ok final
    ∧ length (loop_states (build small_args RNN) 4 6 small_start) = S (t_ final)
    ∧ running (build small_args RNN) final = false.
Proof.
  destruct (loop_completes (N:=toy_numerics) small_args RNN 4 small_hidden)
    as (final & Hloop & _ & Hlen & Hstop & _);
    [unfold special_ids_ok; simpl; lia|reflexivity|].
  exists final. split; [exact Hloop|]. split; [exact Hlen|exact Hstop].
Defined.

Lemma inference_returns_witness :
  ∃ buffer, inference (N:=toy_numerics) (build small_args RNN) 0 4 None
            = Ok (buffer, Tensor [4; 1] [0; 1; 2; 3]%Z)
    ∧ shape (Tensor (A:=Z) [4; 1] [0; 1; 2; 3]%Z) = [4; 1]
    ∧ width buffer = 6
    ∧ length (mrows buffer) = 4
    ∧ ∀ r, r ∈ mrows buffer → length r = 6.
Proof.
  apply (inference_returns (N:=toy_numerics) small_args RNN 4 0 4 None);
    [reflexivity|reflexivity|unfold special_ids_ok; simpl; lia|reflexivity].
Defined.

(** * Word dropout at any rate; sorting by length *)

Section Dropping.

Lemma length_word_dropout (m : SentenceVAE) (prob : nat → Q) (x : tensor Z) :
  length (data (word_dropout m prob x)) = length (data x).
Proof.
  unfold word_dropout. simpl. rewrite length_zip_with, length_imap. lia.
Qed.

(** X18.  At every rate and for every draw, word dropout keeps the shape
    and the number of tokens, and every token it returns is the token it
    was given at that place or the unknown id. *)
Theorem word_dropout_frame (m : SentenceVAE) (prob : nat → Q) (x : tensor Z) :
  shape (word_dropout m prob x) = shape x
  ∧ length (data (word_dropout m prob x)) = length (data x)
  ∧ ∀ i w, data (word_dropout m prob x) !! i = Some w →
      data x !! i = Some w ∨ w = unk_idx m.
Proof.
  split; [done|]. split; [apply length_word_dropout|].
  intros i w Hw. destruct (data x !! i) as [v|] eqn:Hv.
  - rewrite (word_dropout_lookup _ _ _ _ _ Hv) in Hw. injection Hw as <-.
    destruct (Qltb _ _); [by right|by left].
  - apply lookup_lt_Some in Hw. rewrite length_word_dropout in Hw.
    apply lookup_ge_None in Hv. lia.
Qed.

(** The rationals that a 32-bit float holds: [k * 2^e] with [|k| < 2^24]. *)
Definition float32 (q : Q) : Prop :=
  ∃ k e : Z, (Z.abs k < 2 ^ 24)%Z ∧ (-149 ≤ e ≤ 104)%Z ∧ (q == inject_Z k * 2 ^ e)%Q.

(** X19.  Line 105 compares the draws, 32-bit floats, with the rate as a
    32-bit float.  For a rate that such a float holds exactly, and ids of
    the vocabulary, a token other than sentence-start and pad becomes the
    unknown id exactly when its draw is below the rate: lines 103-105
    replace it when [prob < rate] and keep it when [rate <= prob]. *)
Theorem word_dropout_by_draw (m : SentenceVAE) (prob : nat → Q) (x : tensor Z) (i : nat)
    (v : Z) :
  float32 (word_dropout_rate m) →
  (0 ≤ sos_idx m < 2 ^ 31)%Z →
  (0 ≤ pad_idx m < 2 ^ 31)%Z →
  (0 ≤ v < 2 ^ 31)%Z →
  data x !! i = Some v →
  v ≠ sos_idx m → v ≠ pad_idx m →
  ((prob i < word_dropout_rate m)%Q → data (word_dropout m prob x) !! i = Some (unk_idx m))
  ∧ ((word_dropout_rate m <= prob i)%Q → data (word_dropout m prob x) !! i = Some v).
Proof.
  intros _ Hs Hp Hv Hi Hns Hnp. rewrite (word_dropout_lookup _ _ _ _ _ Hi).
  rewrite protected_other by done. split; intros Hq.
  - by rewrite Qltb_true.
  - by rewrite Qltb_false.
Qed.

End Dropping.

Lemma word_dropout_by_draw_witness :
  data (word_dropout
          (build (Args 50 8 "gru" 16 (1 # 2) 0 4 2%Z 3%Z 0%Z 1%Z 10 1 false) GRU)
          (λ i, if i =? 1 then 1 # 4 else 3 # 4) padded_tokens) !! 1 = Some 1%Z
  ∧ data (word_dropout
            (build (Args 50 8 "gru" 16 (1 # 2) 0 4 2%Z 3%Z 0%Z 1%Z 10 1 false) GRU)
            (λ i, if i =? 1 then 1 # 4 else 3 # 4) padded_tokens) !! 2 = Some 9%Z.
Proof.
  split.
  - apply (word_dropout_by_draw
             (build (Args 50 8 "gru" 16 (1 # 2) 0 4 2%Z 3%Z 0%Z 1%Z 10 1 false) GRU)
             (λ i, if i =? 1 then 1 # 4 else 3 # 4) padded_tokens 1 7%Z);
      [by exists 1%Z, (-1)%Z|simpl; lia|simpl; lia|lia|reflexivity|discriminate|discriminate
      |reflexivity].
  - apply (word_dropout_by_draw
             (build (Args 50 8 "gru" 16 (1 # 2) 0 4 2%Z 3%Z 0%Z 1%Z 10 1 false) GRU)
             (λ i, if i =? 1 then 1 # 4 else 3 # 4) padded_tokens 2 9%Z);
      [by exists 1%Z, (-1)%Z|simpl; lia|simpl; lia|lia|reflexivity|discriminate|discriminate
      |discriminate].
Defined.

Section Sorting.

Definition key_ge (p q : Z * nat) : Prop := (q.1 ≤ p.1)%Z.

Lemma insert_sorted_descending (p : Z * nat) (l : list (Z * nat)) :
  Sorted key_ge l → Sorted key_ge (insert_sorted Z.geb p l).
Proof.
  induction 1 as [|q l Hl IH Hq]; simpl.
  - repeat constructor.
  - rewrite Z.geb_leb. destruct (Z.leb_spec q.1 p.1) as [Hle|Hlt].
    + constructor; [by constructor|]. by constructor.
    + constructor; [done|].
      destruct Hq as [|r l Hr]; simpl.
      * constructor. unfold key_ge. lia.
      * destruct (p.1 >=? r.1)%Z; constructor; [unfold key_ge; lia|done].
Qed.

Lemma sort_pairs_descending (l : list (Z * nat)) :
  Sorted key_ge (foldr (insert_sorted Z.geb) [] l).
Proof.
  induction l as [|p l IH]; simpl; [constructor|]. by apply insert_sorted_descending.
Qed.

Lemma decreasing_keys (l : list (Z * nat)) : Sorted key_ge l → decreasing (l.*1) = true.
Proof.
  induction 1 as [|q l Hl IH Hq]; [done|].
  destruct Hq as [|r l Hr]; [done|].
  unfold decreasing in *. simpl in *. rewrite IH, andb_true_r.
  apply Z.leb_le. exact Hr.
Qed.

(** The sorted lengths of line 133, entry by entry. *)
Lemma sorted_lengths_elem (descending : bool) (v : list Z) (n : Z) :
  n ∈ (torch_sort descending v).1 ↔ n ∈ v.
Proof.
  unfold torch_sort. simpl.
  rewrite sort_pairs_perm, fst_zip; [done|]. rewrite length_seq. lia.
Qed.

Lemma forallb_elem {A} (f : A → bool) (l : list A) :
  (∀ x, x ∈ l → f x = true) → forallb f l = true.
Proof.
  intros Hf. apply forallb_forall. intros x Hx%list_elem_of_In. by apply Hf.
Qed.

(** X20.  The lengths as line 133 sorts them pass what the packing of
    lines 57 and 109 checks of the lengths of a batch: as many as before,
    in decreasing order, and positive and within the padded length when
    those of the caller are. *)
Theorem sorted_lengths_packable (lengths : list Z) (T : nat) :
  (∀ n, n ∈ lengths → (0 < n ≤ Z.of_nat T)%Z) →
  packable (length lengths) T (torch_sort true lengths).1.
Proof.
  intros Hn. unfold packable. split_and!.
  - unfold torch_sort. simpl. rewrite length_fmap.
    rewrite (Permutation_length (sort_pairs_perm _ _)), length_zip, length_seq. lia.
  - apply forallb_elem. intros n Hin%sorted_lengths_elem. apply Z.ltb_lt. by apply Hn.
  - apply decreasing_keys, sort_pairs_descending.
  - apply forallb_elem. intros n Hin%sorted_lengths_elem. apply Z.leb_le. by apply Hn.
Qed.

(** The pairs of a sort: a key together with the position it came from. *)
Lemma sort_pairs_lookup (descending : bool) (v : list Z) (j : nat) (n : Z) (i : nat) :
  (torch_sort descending v).1 !! j = Some n →
  (torch_sort descending v).2 !! j = Some i →
  v !! i = Some n.
Proof.
  unfold torch_sort. simpl. rewrite !list_lookup_fmap.
  set (ps := foldr _ _ _).
  assert (ps ≡ₚ zip v (seq 0 (length v))) as Hps by apply sort_pairs_perm.
  destruct (ps !! j) as [[n' i']|] eqn:Hp; simpl; [|done].
  intros [= ->] [= ->].
  apply list_elem_of_lookup_2 in Hp. rewrite Hps in Hp.
  apply list_elem_of_lookup in Hp as [pos Hpos].
  apply lookup_zip_with_Some in Hpos as (x & y & [= <- <-] & Hx & Hy).
  apply lookup_seq in Hy as [-> _]. done.
Qed.

(** X21.  What lines 133-134 and 118-119 set out to do.  Indexing the rows
    of a batch with the indices of the descending sort of their lengths
    gives rows whose lengths are the sorted lengths, in that order; and
    indexing those rows with the indices of the ascending sort of the sort
    indices gives the batch back in the caller's order. *)
Theorem sort_by_length_and_back {A} (lengths : list Z) (batch : list A) :
  length batch = length lengths →
  ∃ sorted,
    gather batch (torch_sort true lengths).2 = Ok sorted
    ∧ gather lengths (torch_sort true lengths).2 = Ok (torch_sort true lengths).1
    ∧ gather sorted (torch_sort false (Z.of_nat <$> (torch_sort true lengths).2)).2
      = Ok batch.
Proof.
  intros Hlen. destruct (unsort_sort lengths batch Hlen) as (sorted & Hs & Hback).
  exists sorted. split; [done|]. split; [|done].
  pose proof (sort_indices_perm true lengths) as Hπ.
  destruct (gather_ok lengths (torch_sort true lengths).2) as (r & -> & Hrlen & Hlook).
  { intros i Hi. rewrite Hπ in Hi. apply elem_of_seq in Hi. lia. }
  f_equal. apply list_eq. intros j.
  assert (length (torch_sort true lengths).1 = length (torch_sort true lengths).2) as Hl12.
  { unfold torch_sort. simpl. by rewrite !length_fmap. }
  destruct ((torch_sort true lengths).2 !! j) as [i|] eqn:Hj.
  - rewrite (Hlook _ _ Hj).
    destruct (lookup_lt_is_Some_2 (torch_sort true lengths).1 j) as [n Hn].
    { rewrite Hl12. by eapply lookup_lt_Some. }
    rewrite Hn. by eapply sort_pairs_lookup.
  - apply lookup_ge_None in Hj. rewrite !lookup_ge_None_2; [done|lia..].
Qed.

End Sorting.

Lemma sorted_lengths_packable_witness :
  packable 3 4 (torch_sort true [3; 4; 2]%Z).1.
Proof.
  apply (sorted_lengths_packable [3; 4; 2]%Z 4).
  intros n Hn. apply list_elem_of_In in Hn. simpl in Hn.
  destruct Hn as [<-|[<-|[<-|[]]]]; lia.
Defined.

Lemma sort_by_length_and_back_witness :
  ∃ sorted,
    gather ["a"; "b"; "c"] (torch_sort true [3; 4; 2]%Z).2 = Ok sorted
    ∧ gather [3; 4; 2]%Z (torch_sort true [3; 4; 2]%Z).2 = Ok (torch_sort true [3; 4; 2]%Z).1
    ∧ gather sorted (torch_sort false (Z.of_nat <$> (torch_sort true [3; 4; 2]%Z).2)).2
      = Ok ["a"; "b"; "c"].
Proof.
  apply (sort_by_length_and_back [3; 4; 2]%Z ["a"; "b"; "c"]). reflexivity.
Defined.

(** * Further properties of [reparameterize] and [forward] *)

Section Reparameterizing.
Context {N : Numerics}.

Lemma preserves_read_long n l : preserves n (λ _, True) (read_long l).
Proof.
  eapply preserves_bind; [apply preserves_read|].
  intros [] _; first [by apply preserves_ret | by apply preserves_lift].
Qed.

Lemma preserves_any {A} n (r : result A) : preserves n (λ _, True) (lift r).
Proof. by apply preserves_lift. Qed.

Lemma read_ok σ l o : objects σ !! l = Some o → read l σ = (Ok o, σ).
Proof. intros E. unfold read. by rewrite E. Qed.

(** [forward] leaves every object that exists at the call as it is. *)
Lemma forward_preserves G m prob input_seq length n :
  preserves n (λ _, True) (forward G m prob input_seq length).
Proof.
  unfold forward.
  eapply preserves_bind; [apply preserves_read_long|intros x0 _].
  eapply preserves_bind; [apply preserves_any|intros batch_size _].
  eapply preserves_bind; [apply preserves_read_long|intros len _].
  eapply preserves_bind; [apply preserves_any|intros lv _].
  eapply preserves_bind; [apply preserves_alloc|intros sorted_lengths _].
  eapply preserves_bind; [apply preserves_alloc|intros sorted_idx _].
  eapply preserves_bind; [apply preserves_any|intros input_sequence _].
  eapply preserves_bind; [apply preserves_read_long|intros t _].
  eapply preserves_bind; [apply preserves_any|intros sel _].
  eapply preserves_bind; [apply preserves_alloc|intros x _].
  eapply preserves_bind; [apply preserves_any|intros [[[? x_embed] mean] logvar] _].
  eapply preserves_bind; [apply preserves_alloc|intros x_embed' _].
  eapply preserves_bind; [apply preserves_alloc|intros mean' _].
  eapply preserves_bind; [apply preserves_alloc|intros logvar' _].
  eapply preserves_bind; [apply reparameterize_preserves|intros z _].
  eapply preserves_bind; [apply (preserves_any n (Raise TypeError))|intros logp _].
  by apply preserves_ret.
Qed.

(** X22.  Whatever the module namespace holds, and wherever the call
    raises, [forward] leaves every object that exists at the call as it
    was, the token ids and the lengths of the caller among them: it reads
    them, and writes to tensors of its own. *)
Theorem forward_frame (G : gmap string loc) (m : SentenceVAE) (prob : nat → Q)
    (input_seq length : loc) (σ : store) (l : loc) (o : object) :
  objects σ !! l = Some o →
  objects (forward G m prob input_seq length σ).2 !! l = Some o.
Proof.
  intros Hl. destruct (forward G m prob input_seq length σ) as [r σ'] eqn:E. simpl.
  destruct (forward_preserves G m prob input_seq length (List.length (objects σ)) σ r σ')
    as (_ & Hsame & _); [done..|].
  rewrite Hsame; [done|]. by eapply lookup_lt_Some.
Qed.

(** X23.  In a namespace that binds [batch_size] to an integer [n], line
    77 draws noise of shape (n, latent_size), whatever the argument [bs]
    is; the call leaves four new tensors after the objects of the store,
    [0.5 * logv], the standard deviation, the noise and
    [noise * std + mean], returns the last one, and advances the generator
    by [n * latent_size] draws. *)
Theorem reparameterize_bound (G : gmap string loc) (m : SentenceVAE) (bs : nat)
    (mean logv : loc) (σ : store) (b : loc) (n : Z) (lv mv p r : tensor R) :
  G !! "batch_size" = Some b →
  objects σ !! b = Some (OInt n) →
  (0 ≤ n)%Z →
  objects σ !! logv = Some (OFloat lv) →
  objects σ !! mean = Some (OFloat mv) →
  let half := Tensor (shape lv) (map half_fn (data lv)) in
  let std := Tensor (shape lv) (map exp_fn (map half_fn (data lv))) in
  let noise := Tensor [Z.to_nat n; latent_size m]
                      (map gauss (seq (drawn σ) (Z.to_nat n * (latent_size m * 1)))) in
  tensor_mul noise std = Ok p →
  tensor_add p mv = Ok r →
  shape r = shape p →
  reparameterize G m bs mean logv σ
  = (Ok (List.length (objects σ) + 3),
     Store (objects σ ++ [OFloat half; OFloat std; OFloat noise; OFloat r])
           (drawn σ + Z.to_nat n * (latent_size m * 1))).
Proof.
  intros HG Hb Hn Hlv Hmv half std noise Hp Hr Hshape.
  destruct σ as [objs d]. simpl in *. unfold reparameterize.
  erewrite bind_ok; [|by apply read_float_ok].
  erewrite bind_ok; [|reflexivity].
  erewrite bind_ok; [|apply read_float_ok; simpl; apply list_lookup_middle; reflexivity].
  erewrite bind_ok; [|reflexivity].
  erewrite bind_ok; [|unfold lift, global; by rewrite HG].
  apply lookup_lt_Some in Hb as Hblt.
  erewrite bind_ok.
  2: { apply read_ok. simpl. rewrite !lookup_app_l; [exact Hb|..];
         rewrite ?length_app; simpl; lia. }
  assert ((0 <=? n)%Z = true) as Hnb by (by apply Z.leb_le).
  erewrite bind_ok; [|unfold lift; by rewrite Hnb].
  erewrite bind_ok; [|reflexivity].
  erewrite bind_ok; [|apply read_float_ok; simpl; apply list_lookup_middle; reflexivity].
  erewrite bind_ok.
  2: { apply read_float_ok. simpl. rewrite lookup_app_l.
       - apply list_lookup_middle. reflexivity.
       - rewrite !length_app. simpl. lia. }
  unfold to_var. fold half std noise.
  erewrite bind_ok; [|unfold lift; by rewrite Hp].
  erewrite bind_ok; [|reflexivity].
  erewrite bind_ok; [|apply read_float_ok; simpl; apply list_lookup_middle; reflexivity].
  apply lookup_lt_Some in Hmv as Hmean.
  erewrite bind_ok.
  2: { apply read_float_ok. simpl. rewrite !lookup_app_l; [exact Hmv|..];
         rewrite ?length_app; simpl; lia. }
  erewrite bind_ok; [|unfold lift; by rewrite Hr].
  erewrite bind_ok; [|unfold lift; by rewrite bool_decide_eq_true_2].
  erewrite bind_ok; [|reflexivity].
  unfold mret, M_ret. simpl. f_equal.
  - f_equal. rewrite !length_app. simpl. lia.
  - f_equal. rewrite <- !app_assoc. simpl.
    rewrite !length_app. simpl.
    rewrite insert_app_r_alt by lia.
    replace (List.length objs + 3 - List.length objs) with 3 by lia.
    reflexivity.
Qed.

End Reparameterizing.

Lemma forward_frame_witness :
  objects (forward (N:=toy_numerics) module_globals (build rnn_args RNN) (λ _, 0%Q) 5 6
             batch_store).2 !! 5
  = Some (OLong (N:=toy_numerics) (Tensor [2; 4] [2; 7; 3; 0; 2; 5; 6; 3]%Z)).
Proof.
  apply (forward_frame (N:=toy_numerics) module_globals (build rnn_args RNN) (λ _, 0%Q) 5 6
           batch_store 5).
  reflexivity.
Defined.

Lemma reparameterize_bound_witness :
  reparameterize (N:=toy_numerics) patched_globals (build small_args RNN) 7 6 7 latent_store
  = (Ok 11,
     Store (N:=toy_numerics)
       (module_store ++ [OInt 2; mean_object; logv_object;
                         OFloat (N:=toy_numerics) (Tensor [2; 1] [3; 4]%Z);
                         OFloat (N:=toy_numerics) (Tensor [2; 1] [3; 4]%Z);
                         OFloat (N:=toy_numerics) (Tensor [2; 1] [0; 1]%Z);
                         OFloat (N:=toy_numerics) (Tensor [2; 1] [10; 24]%Z)]) 2).
Proof.
  apply (reparameterize_bound (N:=toy_numerics) patched_globals (build small_args RNN) 7 6 7
           latent_store 5 2%Z (Tensor [2; 1] [3; 4]%Z) (Tensor [2; 1] [10; 20]%Z)
           (Tensor [2; 1] [0; 4]%Z) (Tensor [2; 1] [10; 24]%Z));
    [reflexivity|reflexivity|lia|reflexivity|reflexivity|reflexivity|reflexivity|reflexivity].
Defined.

(** * The result of [_sample] in general *)

Section Sampled.
Context {N : Numerics}.

(** X24.  Whatever logits and mode it is given, a call of [_sample] that
    returns was made in greedy mode, and its result has at least one
    dimension: either the shape (1) that lines 211-212 enforce, or a shape
    in which the squeeze of line 208 has left no dimension of size 1. *)
Theorem sample_dimensions (dist : tensor R) (mode : string) (out : tensor Z) :
  _sample dist mode = Ok out →
  mode = "greedy"
  ∧ (shape out = [1] ∨ (shape out ≠ [] ∧ ∀ d, d ∈ shape out → d ≠ 1)).
Proof.
  unfold _sample. destruct (String.eqb_spec mode "greedy") as [->|]; [|done].
  destruct (topk1 dist) as [t|]; [|done]. rewrite result_bind_ok.
  remember (squeeze t) as q eqn:Hs. apply (f_equal shape) in Hs.
  unfold squeeze in Hs. destruct q as [s d]. simpl in *. destruct s as [|d0 s]; simpl.
  - intros [= <-]. split; [done|by left].
  - intros [= <-]. split; [done|]. right. split; [done|]. simpl.
    intros d' Hd'. rewrite Hs in Hd'. by apply list_elem_of_filter in Hd' as [? _].
Qed.

End Sampled.

Lemma sample_dimensions_witness :
  "greedy" = "greedy"
  ∧ (shape (Tensor [1] [4%Z]) = [1]
     ∨ (shape (Tensor [1] [4%Z]) ≠ [] ∧ ∀ d, d ∈ shape (Tensor [1] [4%Z]) → d ≠ 1)).
Proof.
  apply (sample_dimensions (N:=toy_numerics) single_logits "greedy" (Tensor [1] [4%Z])).
  reflexivity.
Defined.
